(** * salt.engines.http_logstash: the event-forwarding engine

    A shallow embedding of [src/salt/engines/http_logstash.py] and the
    properties of its consume / filter / forward loop.

    Python values are embedded as the inductive [pyval]; Python exceptions
    as the error side of [res]; the event bus, the HTTP helper and the JSON
    serializer ([salt.utils.event], [salt.utils.http], [salt.utils.json])
    are collaborators of the engine and enter as Section variables acting
    on an abstract world. *)

From Stdlib Require Import List String Ascii Bool Arith ZArith Lia DecimalString.
Import ListNotations.
Local Open Scope string_scope.
Local Open Scope list_scope.

(* ------------------------------------------------------------------ *)
(** ** Python values *)
(* ------------------------------------------------------------------ *)

Set Warnings "-register-all".

(** The values the engine can meet: configuration values ([tags], [funs],
    [url], the entries of [__opts__]) and events.  Dictionaries are
    insertion-ordered with string keys, as the event records of the bus
    are.  A [str] is a text whose characters are the code points below
    256, one [ascii] for each.  Floats, sets and user classes are not
    represented. *)
Inductive pyval : Type :=
| PyNone
| PyBool (b : bool)
| PyInt (z : Z)
| PyStr (s : string)
| PyBytes (s : string)
| PyList (l : list pyval)
| PyTuple (l : list pyval)
| PyDict (d : list (string * pyval)).

(** Python exceptions that the modelled operations raise; [OtherError]
    stands for whatever a collaborator raises. *)
Inductive exn : Type :=
| TypeError
| KeyError
| AttributeError
| ValueError
| OtherError (name : string).

(** A computation either returns or raises. *)
Inductive res (A : Type) : Type :=
| Ok (a : A)
| Raise (e : exn).
Arguments Ok {A} a.
Arguments Raise {A} e.

Definition res_bind {A B} (r : res A) (k : A -> res B) : res B :=
  match r with
  | Ok a => k a
  | Raise e => Raise e
  end.

(** [bool(v)]: Python truth value testing. *)
Definition truthy (v : pyval) : bool :=
  match v with
  | PyNone => false
  | PyBool b => b
  | PyInt z => negb (Z.eqb z 0)
  | PyStr s => negb (String.eqb s "")
  | PyBytes s => negb (String.eqb s "")
  | PyList l => match l with [] => false | _ => true end
  | PyTuple l => match l with [] => false | _ => true end
  | PyDict d => match d with [] => false | _ => true end
  end.

(** [isinstance(v, list)]. *)
Definition isinstance_list (v : pyval) : bool :=
  match v with
  | PyList _ => true
  | _ => false
  end.

(** Lookup in an insertion-ordered dictionary. *)
Fixpoint dict_get (k : string) (d : list (string * pyval)) : option pyval :=
  match d with
  | [] => None
  | (k', v) :: d' => if String.eqb k k' then Some v else dict_get k d'
  end.

Definition dict_has (k : string) (d : list (string * pyval)) : bool :=
  match dict_get k d with
  | Some _ => true
  | None => false
  end.

Definition Z_of_bool (b : bool) : Z := if b then 1%Z else 0%Z.

(** [a == b].  [bool] is a subclass of [int], so [True == 1]; lists and
    tuples compare element by element and never equal each other;
    dictionaries compare as mappings, whatever the insertion order. *)
Fixpoint py_eq (a b : pyval) {struct a} : bool :=
  match a, b with
  | PyNone, PyNone => true
  | PyBool x, PyBool y => Bool.eqb x y
  | PyBool x, PyInt y => Z.eqb (Z_of_bool x) y
  | PyInt x, PyBool y => Z.eqb x (Z_of_bool y)
  | PyInt x, PyInt y => Z.eqb x y
  | PyStr x, PyStr y => String.eqb x y
  | PyBytes x, PyBytes y => String.eqb x y
  | PyList x, PyList y =>
      (fix eq_list (x y : list pyval) {struct x} : bool :=
         match x, y with
         | [], [] => true
         | u :: x', v :: y' => py_eq u v && eq_list x' y'
         | _, _ => false
         end) x y
  | PyTuple x, PyTuple y =>
      (fix eq_list (x y : list pyval) {struct x} : bool :=
         match x, y with
         | [], [] => true
         | u :: x', v :: y' => py_eq u v && eq_list x' y'
         | _, _ => false
         end) x y
  | PyDict x, PyDict y =>
      Nat.eqb (List.length x) (List.length y) &&
      (fix sub_dict (x : list (string * pyval)) {struct x} : bool :=
         match x with
         | [] => true
         | (k, u) :: x' =>
             match dict_get k y with
             | Some v => py_eq u v && sub_dict x'
             | None => false
             end
         end) x
  | _, _ => false
  end.

(** Hashability, needed by membership in a dictionary. *)
Fixpoint hashable (v : pyval) : bool :=
  match v with
  | PyList _ | PyDict _ => false
  | PyTuple l =>
      (fix all (l : list pyval) : bool :=
         match l with
         | [] => true
         | u :: l' => hashable u && all l'
         end) l
  | _ => true
  end.

(* ------------------------------------------------------------------ *)
(** ** Python operations used by the engine *)
(* ------------------------------------------------------------------ *)

Module Str.

(** [s.startswith(p)] on character lists. *)
Fixpoint prefixb (p s : list ascii) : bool :=
  match p, s with
  | [], _ => true
  | a :: p', b :: s' => Ascii.eqb a b && prefixb p' s'
  | _ :: _, [] => false
  end.

(** [p in s] for two strings: [p] occurs in [s] as a contiguous run. *)
Fixpoint infixb (p s : list ascii) : bool :=
  prefixb p s ||
  match s with
  | [] => false
  | _ :: s' => infixb p s'
  end.

(** [s.endswith(suffix)]. *)
Definition endswith (s suffix : string) : bool :=
  prefixb (rev (list_ascii_of_string suffix)) (rev (list_ascii_of_string s)).

Definition contains (s p : string) : bool :=
  infixb (list_ascii_of_string p) (list_ascii_of_string s).

End Str.

(** [container[key]] for a string key.  Only a dictionary can be indexed
    by a string; a sequence wants an integer and the other values are not
    subscriptable: both raise [TypeError]. *)
Definition py_getitem (container : pyval) (key : string) : res pyval :=
  match container with
  | PyDict d =>
      match dict_get key d with
      | Some v => Ok v
      | None => Raise KeyError
      end
  | _ => Raise TypeError
  end.

(** [item in container]. *)
Definition py_contains (container item : pyval) : res bool :=
  match container with
  | PyList l | PyTuple l => Ok (existsb (fun e => py_eq item e) l)
  | PyStr s =>
      match item with
      | PyStr p => Ok (Str.contains s p)
      | _ => Raise TypeError
      end
  | PyBytes s =>
      match item with
      | PyBytes p => Ok (Str.contains s p)
      | PyInt z =>
          if (0 <=? z)%Z && (z <? 256)%Z
          then Ok (existsb (fun c => Z.eqb (Z.of_nat (nat_of_ascii c)) z)
                           (list_ascii_of_string s))
          else Raise ValueError
      | PyBool b =>
          Ok (existsb (fun c => Z.eqb (Z.of_nat (nat_of_ascii c)) (Z_of_bool b))
                      (list_ascii_of_string s))
      | _ => Raise TypeError
      end
  | PyDict d =>
      if hashable item
      then match item with
           | PyStr k => Ok (dict_has k d)
           | _ => Ok false
           end
      else Raise TypeError
  | PyNone | PyBool _ | PyInt _ => Raise TypeError
  end.

(** [v.endswith(suffix)] for a [str] suffix: an attribute of [str] and
    [bytes] only, and [bytes.endswith] refuses a [str] argument. *)
Definition py_endswith (v : pyval) (suffix : string) : res bool :=
  match v with
  | PyStr s => Ok (Str.endswith s suffix)
  | PyBytes _ => Raise TypeError
  | _ => Raise AttributeError
  end.

(* ------------------------------------------------------------------ *)
(** ** [fnmatch]: shell-style pattern matching *)
(* ------------------------------------------------------------------ *)

(** The engine imports [fnmatch] from the Python standard library.  The
    module follows [fnmatch.translate] of CPython 3.11 on a POSIX host,
    where [os.path.normcase] is the identity: the pattern is read left
    to right into tokens, one for each piece of the regular expression
    that [translate] writes, and the name has to match the tokens as a
    whole.  A [string] stands for a text whose characters are the code
    points below 256, one [ascii] for each; texts with other characters
    are not represented. *)
Module Fnmatch.

(** Members of a [[...]] class: a character or a range [lo-hi]. *)
Inductive citem : Type :=
| CChar (c : ascii)
| CRange (lo hi : ascii).

Inductive gtok : Type :=
| GStar                                   (* [*] *)
| GAny                                    (* [?] *)
| GClass (negated : bool) (items : list citem)  (* [[seq]], [[!seq]] *)
| GLit (c : ascii).                       (* anything else *)

Definition code (c : ascii) : nat := nat_of_ascii c.

Definition item_has (c : ascii) (it : citem) : bool :=
  match it with
  | CChar a => Ascii.eqb a c
  | CRange lo hi => Nat.leb (code lo) (code c) && Nat.leb (code c) (code hi)
  end.

Definition class_has (negated : bool) (items : list citem) (c : ascii) : bool :=
  xorb negated (existsb (item_has c) items).

(** [while j < n and pat[j] != ']': j = j+1]: the text before the
    first ["]"] and the text after it, if there is one. *)
Fixpoint split_close (l : list ascii) : option (list ascii * list ascii) :=
  match l with
  | [] => None
  | c :: l' =>
      if Ascii.eqb c "]"%char then Some ([], l')
      else match split_close l' with
           | Some (body, rest) => Some (c :: body, rest)
           | None => None
           end
  end.

(** What follows a ["["]: [j] passes an optional ["!"], then an optional
    ["]"], then runs up to the closing ["]"].  The result is
    [stuff = pat[i:j]], with its ["!"], and the text after the ["]"];
    nothing when the bracket is not closed. *)
Definition scan_class (l : list ascii) : option (list ascii * list ascii) :=
  let '(bang, l1) :=
    match l with
    | c :: l' => if Ascii.eqb c "!"%char then ([c], l') else ([], l)
    | [] => ([], l)
    end in
  let '(first, l2) :=
    match l1 with
    | c :: l' => if Ascii.eqb c "]"%char then ([c], l') else ([], l1)
    | [] => ([], l1)
    end in
  match split_close l2 with
  | Some (body, rest) => Some (bang ++ first ++ body, rest)
  | None => None
  end.

(** The characters of [stuff] as [translate] hands them to the regular
    expression: [TLit c] for a character that stands for itself (written
    with a backslash where the expression needs one), [THyph] for a
    hyphen that joins two chunks and so makes a range. *)
Inductive ctok : Type :=
| TLit (c : ascii)
| THyph.

Definition ctok_char (t : ctok) : ascii :=
  match t with
  | TLit c => c
  | THyph => "-"%char
  end.

(** The [while True] loop over [pat.find("-", k, j)]: the chunks of
    [stuff], kept as one list with [THyph] at each joint.  [skip] counts
    the characters before [k], which [find] does not look at: one at the
    start (two after a ["!"]), two after each hyphen found
    ([i = k+1; k = k+3]).  A hyphen found at the very end leaves an empty
    last chunk and is put back as a character
    ([chunks[-1] += "-"]). *)
Fixpoint mark (skip : nat) (l : list ascii) : list ctok :=
  match l with
  | [] => []
  | c :: l' =>
      match skip with
      | O =>
          if Ascii.eqb c "-"%char then
            match l' with
            | [] => [TLit c]
            | _ => THyph :: mark 2 l'
            end
          else TLit c :: mark 0 l'
      | S skip' => TLit c :: mark skip' l'
      end
  end.

(** [if chunks[k-1][-1] > chunks[k][0]]: a range whose ends are in the
    wrong order is taken out, ends and hyphen. *)
Fixpoint remove_empty (ts : list ctok) : list ctok :=
  match ts with
  | [] => []
  | t :: rest =>
      match t, rest with
      | TLit lo, THyph :: TLit hi :: rest' =>
          if Nat.ltb (code hi) (code lo) then remove_empty rest'
          else t :: THyph :: TLit hi :: remove_empty rest'
      | _, _ => t :: remove_empty rest
      end
  end.

(** How the regular expression reads what is between its brackets: a
    character, a joining hyphen and a character are a range; anything
    else is a member by itself. *)
Fixpoint regex_items (ts : list ctok) : list citem :=
  match ts with
  | [] => []
  | t :: rest =>
      match rest with
      | THyph :: t' :: rest' =>
          CRange (ctok_char t) (ctok_char t') :: regex_items rest'
      | _ => CChar (ctok_char t) :: regex_items rest
      end
  end.

(** The class that [translate] writes for [stuff]: the ranges are found
    and the empty ones removed first; what is left is negated when it
    begins with ["!"].  Nothing left is the class that no character is
    in ([(?!)]), a lone ["!"] the class that every character is in
    ([.]). *)
Definition read_class (stuff : list ascii) : gtok :=
  let skip :=
    match stuff with
    | c :: _ => if Ascii.eqb c "!"%char then 2 else 1
    | [] => 1
    end in
  let ts := remove_empty (mark skip stuff) in
  match ts with
  | TLit c :: ts' =>
      if Ascii.eqb c "!"%char then GClass true (regex_items ts')
      else GClass false (regex_items ts)
  | _ => GClass false (regex_items ts)
  end.

(** [translate], with the characters left to read as fuel. *)
Fixpoint translate_aux (fuel : nat) (pat : list ascii) : list gtok :=
  match fuel with
  | O => []
  | S fuel' =>
      match pat with
      | [] => []
      | c :: pat' =>
          if Ascii.eqb c "*"%char then GStar :: translate_aux fuel' pat'
          else if Ascii.eqb c "?"%char then GAny :: translate_aux fuel' pat'
          else if Ascii.eqb c "["%char then
            match scan_class pat' with
            | Some (stuff, rest) => read_class stuff :: translate_aux fuel' rest
            | None => GLit c :: translate_aux fuel' pat'
            end
          else GLit c :: translate_aux fuel' pat'
      end
  end.

Definition translate (pat : string) : list gtok :=
  let l := list_ascii_of_string pat in
  translate_aux (List.length l) l.

(** A whole-string match of the tokens, [*] trying every split.  (The
    expression of [translate] lets a [*] in the middle stop at the first
    place where the pieces up to the next [*] fit; for pieces that each
    take one character that finds a match whenever there is one.) *)
Fixpoint matches (toks : list gtok) (s : list ascii) {struct toks} : bool :=
  match toks with
  | [] => match s with [] => true | _ => false end
  | GStar :: toks' =>
      (fix star (s : list ascii) : bool :=
         matches toks' s ||
         match s with
         | [] => false
         | _ :: s' => star s'
         end) s
  | GAny :: toks' =>
      match s with
      | _ :: s' => matches toks' s'
      | [] => false
      end
  | GClass negated items :: toks' =>
      match s with
      | c :: s' => class_has negated items c && matches toks' s'
      | [] => false
      end
  | GLit a :: toks' =>
      match s with
      | c :: s' => Ascii.eqb a c && matches toks' s'
      | [] => false
      end
  end.

(** The branch of [matches] for [*], as a function of its own. *)
Definition star (toks : list gtok) : list ascii -> bool :=
  fix star (s : list ascii) : bool :=
    matches toks s ||
    match s with
    | [] => false
    | _ :: s' => star s'
    end.

(** Shell-style matching, said declaratively: [*] stands for any run
    of characters, [?] for one character, a class for one of its
    members (or one of the others when negated), any other character
    for itself. *)
Inductive Glob : list gtok -> list ascii -> Prop :=
| Glob_nil : Glob [] []
| Glob_star toks any_run s :
    Glob toks s -> Glob (GStar :: toks) (any_run ++ s)
| Glob_any toks c s :
    Glob toks s -> Glob (GAny :: toks) (c :: s)
| Glob_class negated items toks c s :
    class_has negated items c = true ->
    Glob toks s -> Glob (GClass negated items :: toks) (c :: s)
| Glob_lit toks c s :
    Glob toks s -> Glob (GLit c :: toks) (c :: s).

(** [name] glob-matches the pattern [pat]. *)
Definition glob_matches (name pat : string) : Prop :=
  Glob (translate pat) (list_ascii_of_string name).

(** [fnmatch.fnmatchcase(name, pat)] on two [str]. *)
Definition fnmatchcase (name pat : string) : bool :=
  matches (translate pat) (list_ascii_of_string name).

(** [fnmatch.fnmatch(name, pat)]: two [str], or two [bytes] read as
    Latin-1; anything else is a [TypeError]. *)
Definition fnmatch (name pat : pyval) : res bool :=
  match name, pat with
  | PyStr n, PyStr p => Ok (fnmatchcase n p)
  | PyBytes n, PyBytes p => Ok (fnmatchcase n p)
  | _, _ => Raise TypeError
  end.

End Fnmatch.

(* ------------------------------------------------------------------ *)
(** ** Shell patterns and what they stand for *)
(* ------------------------------------------------------------------ *)

(** Shell-style patterns as the documentation of [fnmatch] describes
    them, with their meaning said directly, without [translate]:
    [*] matches everything, [?] any single character, [[seq]] any
    character in [seq], [[!seq]] any character not in [seq], and any
    other character itself. *)
Module Shell.

(** The members of a [seq]: a character, or a range [lo-hi]. *)
Inductive member : Type :=
| MChar (c : ascii)
| MRange (lo hi : ascii).

Inductive piece : Type :=
| PStar
| PAny
| PClass (negated : bool) (members : list member)
| PChar (c : ascii).

(** How a pattern is written. *)
Definition show_member (m : member) : list ascii :=
  match m with
  | MChar c => [c]
  | MRange lo hi => [lo; "-"%char; hi]
  end.

Definition show_members (ms : list member) : list ascii :=
  flat_map show_member ms.

Definition show_piece (p : piece) : list ascii :=
  match p with
  | PStar => ["*"%char]
  | PAny => ["?"%char]
  | PClass negated ms =>
      "["%char :: (if negated then ["!"%char] else []) ++ show_members ms
               ++ ["]"%char]
  | PChar c => [c]
  end.

Definition show (ps : list piece) : list ascii := flat_map show_piece ps.

Definition pattern (ps : list piece) : string := string_of_list_ascii (show ps).

(** The pieces of a text that has no wildcard in it. *)
Definition text (s : string) : list piece := map PChar (list_ascii_of_string s).

(** What a pattern matches. *)
Definition in_member (c : ascii) (m : member) : Prop :=
  match m with
  | MChar a => c = a
  | MRange lo hi =>
      nat_of_ascii lo <= nat_of_ascii c /\ nat_of_ascii c <= nat_of_ascii hi
  end.

Definition in_seq (ms : list member) (c : ascii) : Prop :=
  exists m, In m ms /\ in_member c m.

Definition in_class (negated : bool) (ms : list member) (c : ascii) : Prop :=
  if negated then ~ in_seq ms c else in_seq ms c.

Inductive Denotes : list piece -> list ascii -> Prop :=
| Denotes_nil : Denotes [] []
| Denotes_star ps everything s :
    Denotes ps s -> Denotes (PStar :: ps) (everything ++ s)
| Denotes_any ps c s :
    Denotes ps s -> Denotes (PAny :: ps) (c :: s)
| Denotes_class negated ms ps c s :
    in_class negated ms c ->
    Denotes ps s -> Denotes (PClass negated ms :: ps) (c :: s)
| Denotes_char ps c s :
    Denotes ps s -> Denotes (PChar c :: ps) (c :: s).

Definition matches (ps : list piece) (name : string) : Prop :=
  Denotes ps (list_ascii_of_string name).

(** The patterns whose writing can be read in one way only.  In a
    [seq], a ["]"] can only come first; a ["-"] that is a member, or the
    low end of a range, can only come first or straight after a range
    (as a member, it can also come last); a ["!"] cannot come first
    unless the class is negated; the ends of a range are in order; and
    there is at least one member.  Outside of a class a character is
    not [*] or [?], and a ["["] stands for itself only when no ["]"]
    comes after it. *)
Definition member_ok (negated first after_range last : bool) (m : member)
  : bool :=
  match m with
  | MChar c =>
      (negb (Ascii.eqb c "]") || first) &&
      (negb (Ascii.eqb c "-") || first || after_range || last) &&
      (negb (Ascii.eqb c "!") || negb first || negated)
  | MRange lo hi =>
      Nat.leb (nat_of_ascii lo) (nat_of_ascii hi) &&
      (negb (Ascii.eqb lo "]") || first) &&
      negb (Ascii.eqb hi "]") &&
      (negb (Ascii.eqb lo "-") || first || after_range) &&
      (negb (Ascii.eqb lo "!") || negb first || negated)
  end.

Definition is_range (m : member) : bool :=
  match m with
  | MRange _ _ => true
  | MChar _ => false
  end.

Fixpoint members_ok (negated first after_range : bool) (ms : list member)
  : bool :=
  match ms with
  | [] => true
  | m :: rest =>
      member_ok negated first after_range
                (match rest with [] => true | _ => false end) m &&
      members_ok negated false (is_range m) rest
  end.

Definition piece_ok (p : piece) (rest : list ascii) : bool :=
  match p with
  | PStar | PAny => true
  | PClass negated ms =>
      match ms with
      | [] => false
      | _ => members_ok negated true false ms
      end
  | PChar c =>
      negb (Ascii.eqb c "*") && negb (Ascii.eqb c "?") &&
      (negb (Ascii.eqb c "[")
       || forallb (fun d => negb (Ascii.eqb d "]")) rest)
  end.

Fixpoint well_formed (ps : list piece) : bool :=
  match ps with
  | [] => true
  | p :: rest => piece_ok p (show rest) && well_formed rest
  end.

End Shell.

(** What [translate] is to make of a pattern that is written in one way
    only: the members of a class as the regular expression has them, and
    the tokens of the pieces. *)
Module ShellTokens.

Definition item (m : Shell.member) : Fnmatch.citem :=
  match m with
  | Shell.MChar c => Fnmatch.CChar c
  | Shell.MRange lo hi => Fnmatch.CRange lo hi
  end.

Definition member_toks (m : Shell.member) : list Fnmatch.ctok :=
  match m with
  | Shell.MChar c => [Fnmatch.TLit c]
  | Shell.MRange lo hi => [Fnmatch.TLit lo; Fnmatch.THyph; Fnmatch.TLit hi]
  end.

Definition toks (ms : list Shell.member) : list Fnmatch.ctok :=
  flat_map member_toks ms.

(** The mark of a negated class. *)
Definition bang (negated : bool) : list ascii :=
  if negated then ["!"%char] else [].

(** A text with no ["]"] in it. *)
Definition no_close (l : list ascii) : bool :=
  forallb (fun d => negb (Ascii.eqb d "]")) l.

Definition token (p : Shell.piece) : Fnmatch.gtok :=
  match p with
  | Shell.PStar => Fnmatch.GStar
  | Shell.PAny => Fnmatch.GAny
  | Shell.PClass negated ms => Fnmatch.GClass negated (map item ms)
  | Shell.PChar c => Fnmatch.GLit c
  end.

End ShellTokens.

(* ------------------------------------------------------------------ *)
(** ** The engine *)
(* ------------------------------------------------------------------ *)

(** The keyword arguments of one [salt.utils.http.query] call. *)
Record request : Type := mk_request {
  rq_url : pyval;
  rq_method : string;
  rq_header_dict : list (string * pyval);
  rq_data : string;
  rq_decode : bool;
  rq_status : bool;
  rq_opts : list (string * pyval)
}.

(** What the engine does to the outside, in order. *)
Inductive effect : Type :=
| EOpen (instance : string) (sock_dir transport : pyval)
| EGetEvent (full : bool)
| EQuery (rq : request)
| EClose.

Definition is_query (e : effect) : bool :=
  match e with
  | EQuery _ => true
  | _ => false
  end.

(** [_HEADERS = {"Content-Type": "application/json"}] *)
Definition _HEADERS : list (string * pyval) :=
  [("Content-Type", PyStr "application/json")].

Section Engine.

(** The outside of the engine: the bus and the network. *)
Variable World : Type.

(** [salt.utils.event.get_event(instance, sock_dir=, transport=, opts=)]
    entered as a context manager. *)
Variable bus_open : string -> pyval -> pyval -> World -> res unit * World.
(** [event_bus.get_event(full=...)]: an event record, or [None]. *)
Variable bus_get_event : bool -> World -> res pyval * World.
(** Leaving the [with] block. *)
Variable bus_close : World -> World.
(** [salt.utils.http.query(url, method, ...)]: returns the decoded
    result, or raises. *)
Variable http_query : request -> World -> res pyval * World.
(** [salt.utils.json.dumps(obj)]: the JSON text, or raises. *)
Variable json_dumps : pyval -> res string.
(** The module global [__opts__]. *)
Variable opts : list (string * pyval).

(** What running a computation gives: its result, the world it leaves
    and the effects it had, oldest first. *)
Record run (A : Type) : Type := mk_run {
  result : res A;
  final : World;
  trace : list effect
}.
Arguments mk_run {A} _ _ _.
Arguments result {A} _.
Arguments final {A} _.
Arguments trace {A} _.

(** Computations of the engine: they read and change the world, have
    effects, and return or raise. *)
Definition M (A : Type) : Type := World -> run A.

Definition ret {A} (a : A) : M A := fun w => mk_run (Ok a) w [].

Definition bind {A B} (m : M A) (k : A -> M B) : M B :=
  fun w =>
    let r := m w in
    match result r with
    | Ok a =>
        let r' := k a (final r) in
        mk_run (result r') (final r') (trace r ++ trace r')
    | Raise e => mk_run (Raise e) (final r) (trace r)
    end.

Definition lift {A} (r : res A) : M A := fun w => mk_run r w [].

Definition perform {A} (e : effect) (f : World -> res A * World) : M A :=
  fun w => mk_run (fst (f w)) (snd (f w)) [e].

Notation "x <- m ;; k" := (bind m (fun x => k))
  (at level 61, m at next level, right associativity).

Definition open_event_bus (instance : string) (sock_dir transport : pyval)
  : M unit :=
  perform (EOpen instance sock_dir transport)
          (bus_open instance sock_dir transport).

Definition get_event (full : bool) : M pyval :=
  perform (EGetEvent full) (bus_get_event full).

Definition query (rq : request) : M pyval :=
  perform (EQuery rq) (http_query rq).

Definition close_event_bus : M unit :=
  perform EClose (fun w => (Ok tt, bus_close w)).

(** [_logstash(url, data)], lines 58-71.  The arguments are evaluated
    before the call, so [dumps] runs, and may raise, before the query. *)
Definition _logstash (url data : pyval) : M pyval :=
  body <- lift (json_dumps data) ;;
  result <- query (mk_request url "POST" _HEADERS body true true opts) ;;
  ret result.

(** The request of [_logstash(url, data)] once [data] is serialized to
    [body]. *)
Definition post_request (url : pyval) (body : string) : request :=
  mk_request url "POST" _HEADERS body true true opts.

(** Lines 115-117: the [for tag in tags] loop; every pattern is tried,
    there is no [break]. *)
Fixpoint for_tags (event : pyval) (tags : list pyval) (found_match : bool)
  : res bool :=
  match tags with
  | [] => Ok found_match
  | tag :: tags' =>
      res_bind (py_getitem event "tag") (fun name =>
      res_bind (Fnmatch.fnmatch name tag) (fun m =>
      for_tags event tags' (if m then true else found_match)))
  end.

(** Lines 113-118: the value of [publish] after the tag block. *)
Definition tag_block (event tags : pyval) (publish : bool) : res bool :=
  if truthy tags && isinstance_list tags then
    match tags with
    | PyList l => for_tags event l false
    | _ => Ok publish
    end
  else Ok publish.

(** Lines 119-121: the value of [publish] after the function block. *)
Definition fun_block (event funs : pyval) (publish : bool) : res bool :=
  if truthy funs then
    res_bind (py_getitem event "data") (fun data =>
    res_bind (py_contains data (PyStr "fun")) (fun has_fun =>
    if has_fun then
      res_bind (py_getitem event "data") (fun data' =>
      res_bind (py_getitem data' "fun") (fun f =>
      res_bind (py_contains funs f) (fun allowed =>
      if negb allowed then Ok false else Ok publish)))
    else Ok publish))
  else Ok publish.

(** Lines 112-121: [publish] as line 122 reads it. *)
Definition publish (event funs tags : pyval) : res bool :=
  res_bind (tag_block event tags true) (fun p =>
  fun_block event funs p).

(** Lines 111-123: the body of the loop once the event is read. *)
Definition handle_event (url funs tags event : pyval) : M unit :=
  if truthy event then
    p <- lift (publish event funs tags) ;;
    if (p : bool) then
      data <- lift (py_getitem event "data") ;;
      _ <- _logstash url data ;;
      ret tt
    else ret tt
  else ret tt.

(** Lines 110-123: one turn of [while True]. *)
Definition iteration (url funs tags : pyval) : M unit :=
  event <- get_event true ;;
  handle_event url funs tags event.

(** Lines 109-123, cut after [n] turns.  The loop has no exit of its
    own: [Ok tt] says that it is still running after [n] turns, [Raise]
    that an exception left it. *)
Fixpoint loop (n : nat) (url funs tags : pyval) : M unit :=
  match n with
  | O => ret tt
  | S n' =>
      _ <- iteration url funs tags ;;
      loop n' url funs tags
  end.

(** The [with] statement of lines 103-108: an exception that leaves
    the body closes the subscription and goes on to the caller. *)
Definition with_event_bus (instance : string) (sock_dir transport : pyval)
    (body : M unit) : M unit :=
  _ <- open_event_bus instance sock_dir transport ;;
  fun w =>
    let r := body w in
    match result r with
    | Ok a => r
    | Raise e =>
        let c := close_event_bus (final r) in
        mk_run (Raise e) (final c) (trace r ++ trace c)
    end.

Definition opts_get (key : string) : pyval :=
  match dict_get key opts with
  | Some v => v
  | None => PyNone
  end.

(** Lines 99-102: the role of the host. *)
Definition select_instance : res string :=
  res_bind (py_endswith (opts_get "id") "_master") (fun is_master =>
  Ok (if (is_master : bool) then "master" else "minion")).

(** [start(url, funs, tags)], lines 79-123, with the loop cut after [n]
    turns. *)
Definition start (n : nat) (url funs tags : pyval) : M unit :=
  instance <- lift select_instance ;;
  sock_dir <- lift (py_getitem (PyDict opts) "sock_dir") ;;
  transport <- lift (py_getitem (PyDict opts) "transport") ;;
  with_event_bus instance sock_dir transport (loop n url funs tags).

(** Binding the keyword arguments of a call of [start] to the
    signature [def start(url, funs=None, tags=None)]: an unknown
    keyword or a missing [url] is a [TypeError] raised by the call,
    before the body runs. *)
Definition known_kwarg (k : string) : bool :=
  String.eqb k "url" || String.eqb k "funs" || String.eqb k "tags".

Definition kwarg_default (k : string) (kwargs : list (string * pyval))
  : pyval :=
  match dict_get k kwargs with
  | Some v => v
  | None => PyNone
  end.

Definition bind_start_args (kwargs : list (string * pyval))
  : res (pyval * pyval * pyval) :=
  if forallb (fun kv => known_kwarg (fst kv)) kwargs then
    match dict_get "url" kwargs with
    | Some url =>
        Ok (url, kwarg_default "funs" kwargs, kwarg_default "tags" kwargs)
    | None => Raise TypeError
    end
  else Raise TypeError.

Definition call_start (n : nat) (kwargs : list (string * pyval)) : M unit :=
  args <- lift (bind_start_args kwargs) ;;
  let '(url, funs, tags) := args in
  start n url funs tags.

End Engine.

Arguments mk_run {World A} _ _ _.
Arguments result {World A} _.
Arguments final {World A} _.
Arguments trace {World A} _.
Arguments ret {World A} _ _.
Arguments bind {World A B} _ _ _.
Arguments lift {World A} _ _.

(** The events of the bus as the engine indexes them: a dictionary with
    the keys ["data"] and ["tag"]. *)
Definition mk_event (tag : string) (data : list (string * pyval)) : pyval :=
  PyDict [("data", PyDict data); ("tag", PyStr tag)].

(** A configured list of strings, and an optional one ([None] when the
    option is left out). *)
Definition str_list (l : list string) : pyval := PyList (map PyStr l).

Definition opt_str_list (o : option (list string)) : pyval :=
  match o with
  | Some l => str_list l
  | None => PyNone
  end.

(** The two tests of the filter, each run from [publish = True]. *)
Definition tag_accepts (event tags : pyval) : res bool :=
  tag_block event tags true.

Definition fun_accepts (event funs : pyval) : res bool :=
  fun_block event funs true.

(** The effects [t], then the run [r]. *)
Definition prepend {World A} (t : list effect) (r : run World A) : run World A :=
  mk_run (result r) (final r) (t ++ trace r).

Definition is_get_event (e : effect) : bool :=
  match e with
  | EGetEvent _ => true
  | _ => false
  end.

Definition is_open (e : effect) : bool :=
  match e with
  | EOpen _ _ _ => true
  | _ => false
  end.

(** How many HTTP queries, and how many reads of the bus, a trace has. *)
Definition queries (t : list effect) : nat := List.length (filter is_query t).

Definition reads (t : list effect) : nat := List.length (filter is_get_event t).

Definition dumps_ok (r : res string) : bool :=
  match r with
  | Ok _ => true
  | Raise _ => false
  end.

(* ------------------------------------------------------------------ *)
(** ** A scripted world *)
(* ------------------------------------------------------------------ *)

(** A world to run the engine in: the bus hands out the scripted
    [get_event] results in order and then [None]; the HTTP helper hands
    out the scripted outcomes in order and then a 200 result. *)
Module Script.

Local Open Scope string_scope.

Record world : Type := mk_world {
  events : list (res pyval);
  outcomes : list (res pyval);
  closed : bool
}.

Definition bus_open (instance : string) (sock_dir transport : pyval)
    (w : world) : res unit * world :=
  (Ok tt, w).

Definition bus_get_event (full : bool) (w : world) : res pyval * world :=
  match events w with
  | [] => (Ok PyNone, w)
  | r :: rest => (r, mk_world rest (outcomes w) (closed w))
  end.

Definition bus_close (w : world) : world :=
  mk_world (events w) (outcomes w) true.

Definition status (code : Z) : pyval := PyDict [("status", PyInt code)].

Definition http_query (rq : request) (w : world) : res pyval * world :=
  match outcomes w with
  | [] => (Ok (status 200), w)
  | r :: rest => (r, mk_world (events w) rest (closed w))
  end.

Definition dquote : string := String (ascii_of_nat 34) EmptyString.

Definition quote (s : string) : string := dquote ++ s ++ dquote.

Fixpoint join (sep : string) (l : list string) : string :=
  match l with
  | [] => ""
  | [x] => x
  | x :: l' => x ++ sep ++ join sep l'
  end.

Fixpoint all_ok (l : list (res string)) : res (list string) :=
  match l with
  | [] => Ok []
  | r :: l' =>
      res_bind r (fun x => res_bind (all_ok l') (fun xs => Ok (x :: xs)))
  end.

(** A serializer in the manner of [json.dumps]: [None], booleans,
    integers, lists, tuples and dictionaries are written out, strings
    are quoted as they are, and [bytes] are refused with [TypeError]. *)
Fixpoint dumps (v : pyval) : res string :=
  match v with
  | PyNone => Ok "null"
  | PyBool b => Ok (if b then "true" else "false")
  | PyInt z => Ok (NilZero.string_of_int (Z.to_int z))
  | PyStr s => Ok (quote s)
  | PyBytes _ => Raise TypeError
  | PyList l | PyTuple l =>
      res_bind
        (all_ok ((fix each (l : list pyval) : list (res string) :=
                    match l with
                    | [] => []
                    | u :: l' => dumps u :: each l'
                    end) l))
        (fun xs => Ok ("[" ++ join ", " xs ++ "]"))
  | PyDict d =>
      res_bind
        (all_ok ((fix each (d : list (string * pyval)) : list (res string) :=
                    match d with
                    | [] => []
                    | (k, u) :: d' =>
                        res_bind (dumps u)
                                 (fun x => Ok (quote k ++ ": " ++ x))
                        :: each d'
                    end) d))
        (fun xs => Ok ("{" ++ join ", " xs ++ "}"))
  end.

(** The text written for a value that serializes, the empty text for
    one that does not. *)
Definition dumps_text (v : pyval) : string :=
  match dumps v with
  | Ok text => text
  | Raise _ => EmptyString
  end.

Definition opts : list (string * pyval) :=
  [("id", PyStr "web01"); ("sock_dir", PyStr "/var/run/salt/minion");
   ("transport", PyStr "zeromq")].

Definition master_opts : list (string * pyval) :=
  [("id", PyStr "salt01_master"); ("sock_dir", PyStr "/var/run/salt/master");
   ("transport", PyStr "zeromq")].

(** Sample values: an endpoint, a job event, an event whose data holds
    [bytes], and a world whose bus hands out the two. *)
Definition url : pyval := PyStr "http://logstash.example/salt".

Definition job_event : pyval :=
  mk_event "salt/job/123/new" [("fun", PyStr "test.ping")].

Definition bytes_event : pyval :=
  mk_event "salt/job/124/new" [("fun", PyStr "cmd.run"); ("out", PyBytes "ok")].

Definition job_world : world := mk_world [Ok job_event] [Ok (status 500)] false.

Definition bytes_world : world :=
  mk_world [Ok bytes_event; Ok job_event] [] false.

Definition idle_world : world := mk_world [Ok PyNone; Ok job_event] [] false.

End Script.

(* ------------------------------------------------------------------ *)
(** ** Shapes of traces and of configurations *)
(* ------------------------------------------------------------------ *)

(** A computation that returned. *)
Definition is_ok {A} (r : res A) : bool :=
  match r with
  | Ok _ => true
  | Raise _ => false
  end.

Definition is_close (e : effect) : bool :=
  match e with
  | EClose => true
  | _ => false
  end.

(** How many times a trace leaves the [with] block. *)
Definition closes (t : list effect) : nat := List.length (filter is_close t).

(** A trace of the loop: reads of the bus, each followed by at most one
    query. *)
Fixpoint sequential (t : list effect) : bool :=
  match t with
  | [] => true
  | EGetEvent _ :: t' =>
      match t' with
      | EQuery _ :: t'' => sequential t''
      | _ => sequential t'
      end
  | _ => false
  end.

(** The effects that [start(url, ...)] can have under [__opts__ = opts]:
    every read asks for the full event, every query is the POST of
    [_logstash] to [url]. *)
Definition engine_effect (opts : list (string * pyval)) (url : pyval)
    (e : effect) : Prop :=
  match e with
  | EOpen _ _ _ | EClose => True
  | EGetEvent full => full = true
  | EQuery rq => exists body, rq = post_request opts url body
  end.

(** Characters that [fnmatch.translate] does not read as themselves. *)
Definition is_wildcard (c : ascii) : bool :=
  Ascii.eqb c "*"%char || Ascii.eqb c "?"%char || Ascii.eqb c "["%char.

Definition wildcard_free (s : string) : bool :=
  forallb (fun c => negb (is_wildcard c)) (list_ascii_of_string s).

(** An event given by its tag and its data. *)
Definition event_of (td : string * list (string * pyval)) : pyval :=
  mk_event (fst td) (snd td).

(** The events that lines 112-121 let through. *)
Definition accepted (funs tags : pyval) (td : string * list (string * pyval))
  : bool :=
  match publish (event_of td) funs tags with
  | Ok b => b
  | Raise _ => false
  end.

(** The queries that the accepted events give rise to, in order. *)
Definition deliveries (json_dumps : pyval -> res string)
    (opts : list (string * pyval)) (url funs tags : pyval)
    (evs : list (string * list (string * pyval))) : list effect :=
  flat_map
    (fun td =>
       match json_dumps (PyDict (snd td)) with
       | Ok body => [EQuery (post_request opts url body)]
       | Raise _ => []
       end)
    (filter (accepted funs tags) evs).

(* ------------------------------------------------------------------ *)
(** ** The cloud driver: [salt.cloud.clouds.lightsail] *)
(* ------------------------------------------------------------------ *)

Module Lightsail.

(** [s.split(":")[0]]: the text before the first colon. *)
Fixpoint before_colon (s : list ascii) : list ascii :=
  match s with
  | [] => []
  | c :: s' => if Ascii.eqb c ":"%char then [] else c :: before_colon s'
  end.

(** [provider.split(":")[0]]: [str] has the method; [bytes.split]
    refuses a [str] separator; the other values have no [split]. *)
Definition py_split_head (v : pyval) : res pyval :=
  match v with
  | PyStr s =>
      Ok (PyStr (string_of_list_ascii (before_colon (list_ascii_of_string s))))
  | PyBytes _ => Raise TypeError
  | _ => Raise AttributeError
  end.

(** [vm_.get("provider", "lightsail")]: a method of dictionaries. *)
Definition py_get_provider (vm_ : pyval) : res pyval :=
  match vm_ with
  | PyDict d =>
      match dict_get "provider" d with
      | Some v => Ok v
      | None => Ok (PyStr "lightsail")
      end
  | _ => Raise AttributeError
  end.

(** [get_provider(vm_)], lines 465-477; [active] is the module global
    [__active_provider_name__]. *)
Definition get_provider (active vm_ : pyval) : res pyval :=
  res_bind
    (match vm_ with
     | PyNone => Ok (if truthy active then active else PyStr "lightsail")
     | _ => py_get_provider vm_
     end)
    (fun provider =>
       res_bind (py_contains provider (PyStr ":")) (fun has_colon =>
       if (has_colon : bool) then py_split_head provider else Ok provider)).

End Lightsail.

(* ------------------------------------------------------------------ *)
(** ** Facts about the Python operations *)
(* ------------------------------------------------------------------ *)

Module FnmatchFacts.
Import Fnmatch.

Lemma matches_star toks s : matches (GStar :: toks) s = star toks s.
Proof. reflexivity. Qed.

Lemma star_split toks s :
  star toks s = true <->
  exists any_run rest, s = any_run ++ rest /\ matches toks rest = true.
Proof.
  induction s as [|c s IH]; simpl.
  - rewrite orb_false_r. split.
    + intros H. exists [], []. auto.
    + intros (r & t & E & H). symmetry in E.
      apply app_eq_nil in E as [-> ->]. exact H.
  - rewrite orb_true_iff, IH. split.
    + intros [H | (r & t & -> & H)].
      * exists [], (c :: s). auto.
      * exists (c :: r), t. auto.
    + intros (r & t & E & H). destruct r as [|c' r]; simpl in E.
      * left. subst t. exact H.
      * right. injection E as -> ->. eauto.
Qed.

Lemma matches_Glob toks : forall s, matches toks s = true <-> Glob toks s.
Proof.
  induction toks as [|t toks IH]; intros s.
  - destruct s; simpl; split; intros H; try constructor;
      try discriminate; inversion H.
  - destruct t.
    + rewrite matches_star, star_split. split.
      * intros (r & rest & -> & H). constructor. now apply IH.
      * intros H. inversion H; subst. do 2 eexists. split; eauto.
        now apply IH.
    + destruct s as [|c s]; simpl.
      * split; [discriminate | intros H; inversion H].
      * rewrite IH. split; intros H; [now constructor | now inversion H].
    + destruct s as [|c s]; simpl.
      * split; [discriminate | intros H; inversion H].
      * rewrite andb_true_iff, IH. split.
        -- intros [H1 H2]. now constructor.
        -- intros H. inversion H; subst. auto.
    + destruct s as [|a s]; simpl.
      * split; [discriminate | intros H; inversion H].
      * rewrite andb_true_iff, IH, Ascii.eqb_eq. split.
        -- intros [-> H2]. now constructor.
        -- intros H. inversion H; subst. auto.
Qed.

(** [fnmatchcase] decides [glob_matches]. *)
Lemma fnmatchcase_spec name pat :
  fnmatchcase name pat = true <-> glob_matches name pat.
Proof. apply matches_Glob. Qed.

(** How [translate] reads the three kinds of wildcard. *)
Lemma translate_star :
  translate "a*" = [GLit "a"; GStar].
Proof. reflexivity. Qed.

Lemma translate_question :
  translate "a?" = [GLit "a"; GAny].
Proof. reflexivity. Qed.

Lemma translate_class :
  translate "[a-cx]" = [GClass false [CRange "a" "c"; CChar "x"]] /\
  translate "[!a-c]" = [GClass true [CRange "a" "c"]] /\
  translate "[]-]" = [GClass false [CChar "]"; CChar "-"]] /\
  translate "[abc" = [GLit "["; GLit "a"; GLit "b"; GLit "c"].
Proof. repeat split; reflexivity. Qed.

Example fnmatch_star :
  Fnmatch.fnmatchcase "salt/job/123/new" "salt/job/*/new" = true.
Proof. reflexivity. Qed.

Example fnmatch_star_miss :
  Fnmatch.fnmatchcase "salt/job/123/ret/0" "salt/job/*/new" = false.
Proof. reflexivity. Qed.

Example fnmatch_question_class :
  Fnmatch.fnmatchcase "minion7" "mini?n[0-9]" = true /\
  Fnmatch.fnmatchcase "minion7" "mini?n[!0-9]" = false /\
  Fnmatch.fnmatchcase "a]" "[a-c][]x]" = true /\
  Fnmatch.fnmatchcase "[x" "[x" = true.
Proof. repeat split; reflexivity. Qed.

(** Ranges whose ends are in the wrong order are taken out before the
    class is read, and a ["!"] that comes first after that negates it. *)
Example fnmatch_empty_range :
  Fnmatch.fnmatchcase "x" "[b-a]" = false /\
  Fnmatch.fnmatchcase "x" "[b-a!]" = true /\
  Fnmatch.fnmatchcase "salt/x" "salt/[z-a!x]" = false /\
  Fnmatch.fnmatchcase "salt/y" "salt/[z-a!x]" = true /\
  Fnmatch.fnmatchcase "-" "[b-a!-z]" = false /\
  Fnmatch.fnmatchcase "m" "[b-a!-z]" = true.
Proof. repeat split; reflexivity. Qed.

End FnmatchFacts.

Module StrFacts.
Import Str.

Lemma prefixb_app p s : prefixb p (p ++ s) = true.
Proof.
  induction p as [|a p IH]; simpl; [reflexivity|].
  now rewrite Ascii.eqb_refl, IH.
Qed.

Lemma prefixb_split p s :
  prefixb p s = true <-> exists t, s = p ++ t.
Proof.
  split.
  - revert s. induction p as [|a p IH]; intros s H.
    + exists s. reflexivity.
    + destruct s as [|b s]; simpl in H; [discriminate|].
      apply andb_true_iff in H as [E H]. apply Ascii.eqb_eq in E as ->.
      destruct (IH _ H) as [t ->]. now exists t.
  - intros [t ->]. apply prefixb_app.
Qed.

Lemma list_ascii_of_string_app a b :
  list_ascii_of_string (a ++ b) =
  list_ascii_of_string a ++ list_ascii_of_string b.
Proof. induction a as [|c a IH]; simpl; [reflexivity | now rewrite IH]. Qed.

(** [endswith] says that the string is some text followed by the
    suffix. *)
Lemma endswith_spec s suffix :
  endswith s suffix = true <-> exists p, s = (p ++ suffix)%string.
Proof.
  unfold endswith. rewrite prefixb_split. split.
  - intros [t E]. exists (string_of_list_ascii (rev t)).
    apply (f_equal (@rev ascii)) in E. rewrite rev_involutive in E.
    rewrite rev_app_distr, rev_involutive in E.
    rewrite <- (string_of_list_ascii_of_string s), E.
    rewrite <- (string_of_list_ascii_of_string suffix) at 2.
    rewrite <- (string_of_list_ascii_of_string
                  (string_of_list_ascii (rev t) ++ _)).
    rewrite list_ascii_of_string_app.
    now rewrite !list_ascii_of_string_of_list_ascii.
  - intros [p ->]. exists (rev (list_ascii_of_string p)).
    now rewrite list_ascii_of_string_app, rev_app_distr.
Qed.

End StrFacts.

(* ------------------------------------------------------------------ *)
(** ** [fnmatch] and the meaning of shell patterns *)
(* ------------------------------------------------------------------ *)

Module ShellFacts.
Import ShellTokens.

(** *** Reading a class *)

Lemma toks_head ms :
  toks ms = [] \/ exists c ts, toks ms = Fnmatch.TLit c :: ts.
Proof.
  destruct ms as [|[c|lo hi] rest]; [now left | right | right];
    cbn; eauto.
Qed.

Lemma mark_skip k c l :
  Fnmatch.mark (S k) (c :: l) = Fnmatch.TLit c :: Fnmatch.mark k l.
Proof. reflexivity. Qed.

Lemma mark_char c l :
  Ascii.eqb c "-" = false ->
  Fnmatch.mark 0 (c :: l) = Fnmatch.TLit c :: Fnmatch.mark 0 l.
Proof. intros H. cbn [Fnmatch.mark]. now rewrite H. Qed.

Lemma mark_hyphen c l :
  Fnmatch.mark 0 ("-"%char :: c :: l)
  = Fnmatch.THyph :: Fnmatch.TLit c :: Fnmatch.mark 1 l.
Proof. reflexivity. Qed.

(** [find] sees the hyphens of the ranges and no other. *)
Lemma mark_members negated ms : forall first after_range,
  Shell.members_ok negated first after_range ms = true ->
  Fnmatch.mark (if first || after_range then 1 else 0) (Shell.show_members ms)
  = toks ms.
Proof.
  induction ms as [|m rest IH]; intros first ar H; [now destruct (_ || _)|].
  cbn [Shell.members_ok] in H. apply andb_true_iff in H as [Hm Hrest].
  destruct m as [c|lo hi].
  - cbn [Shell.show_members flat_map Shell.show_member app toks member_toks].
    specialize (IH false false Hrest). cbn [orb] in IH.
    fold (Shell.show_members rest). fold (toks rest).
    destruct (first || ar) eqn:E.
    + now rewrite mark_skip, IH.
    + apply orb_false_iff in E as [-> ->].
      cbn [Shell.member_ok] in Hm. rewrite !orb_false_r in Hm.
      destruct (Ascii.eqb c "-") eqn:Ec.
      * destruct rest as [|m' rest'].
        -- cbn [Shell.show_members flat_map Fnmatch.mark].
           now rewrite Ec.
        -- cbn [negb orb andb] in Hm. rewrite andb_false_r in Hm.
           discriminate Hm.
      * now rewrite (mark_char _ _ Ec), IH.
  - cbn [Shell.show_members flat_map Shell.show_member app toks member_toks].
    specialize (IH false true Hrest). cbn [orb Shell.is_range] in IH.
    fold (Shell.show_members rest). fold (toks rest).
    destruct (first || ar) eqn:E.
    + now rewrite mark_skip, mark_hyphen, IH.
    + apply orb_false_iff in E as [-> ->].
      cbn [Shell.member_ok] in Hm. rewrite !orb_false_r in Hm.
      destruct (Ascii.eqb lo "-") eqn:El.
      * cbn [negb] in Hm. rewrite !andb_false_r in Hm.
        cbn [andb] in Hm. discriminate Hm.
      * now rewrite (mark_char _ _ El), mark_hyphen, IH.
Qed.

(** No range of a pattern that is in order is taken out. *)
Lemma remove_empty_toks negated ms : forall first after_range,
  Shell.members_ok negated first after_range ms = true ->
  Fnmatch.remove_empty (toks ms) = toks ms.
Proof.
  induction ms as [|m rest IH]; intros first ar H; [reflexivity|].
  cbn [Shell.members_ok] in H. apply andb_true_iff in H as [Hm Hrest].
  specialize (IH _ _ Hrest).
  destruct m as [c|lo hi];
    cbn [toks flat_map member_toks app]; fold (toks rest).
  - destruct (toks_head rest) as [E | (d & ts & E)]; rewrite E in *.
    + reflexivity.
    + cbn [Fnmatch.remove_empty]. cbn [Fnmatch.remove_empty] in IH.
      now rewrite IH.
  - cbn [Fnmatch.remove_empty]. cbn [Shell.member_ok] in Hm.
    apply andb_true_iff in Hm as [Hm _]. apply andb_true_iff in Hm as [Hm _].
    apply andb_true_iff in Hm as [Hm _]. apply andb_true_iff in Hm as [Hm _].
    apply Nat.leb_le in Hm.
    replace (Nat.ltb (Fnmatch.code hi) (Fnmatch.code lo)) with false
      by (symmetry; apply Nat.ltb_ge; exact Hm).
    now rewrite IH.
Qed.

(** The regular expression reads back the members. *)
Lemma regex_items_toks ms : Fnmatch.regex_items (toks ms) = map item ms.
Proof.
  induction ms as [|m rest IH]; [reflexivity|].
  destruct m as [c|lo hi];
    cbn [toks flat_map member_toks app map item]; fold (toks rest).
  - destruct (toks_head rest) as [E | (d & ts & E)]; rewrite E in *.
    + cbn. now rewrite <- IH.
    + change (Fnmatch.regex_items (Fnmatch.TLit c :: Fnmatch.TLit d :: ts))
        with (Fnmatch.CChar c
              :: Fnmatch.regex_items (Fnmatch.TLit d :: ts)).
      now rewrite IH.
  - change (Fnmatch.regex_items
              (Fnmatch.TLit lo :: Fnmatch.THyph :: Fnmatch.TLit hi
               :: toks rest))
      with (Fnmatch.CRange lo hi :: Fnmatch.regex_items (toks rest)).
    now rewrite IH.
Qed.

(** The first character of a [seq] that is not negated is not ["!"]. *)
Lemma first_not_bang ms after_range :
  Shell.members_ok false true after_range ms = true ->
  match Shell.show_members ms with
  | c :: _ => Ascii.eqb c "!" = false
  | [] => True
  end.
Proof.
  destruct ms as [|m rest]; [easy|]. cbn [Shell.members_ok]. intros H.
  apply andb_true_iff in H as [Hm _].
  destruct m as [c|lo hi]; cbn [Shell.member_ok] in Hm; cbn.
  - apply andb_true_iff in Hm as [_ Hm]. cbn [negb] in Hm.
    rewrite !orb_false_r in Hm. now apply negb_true_iff in Hm.
  - apply andb_true_iff in Hm as [_ Hm]. cbn [negb] in Hm.
    rewrite !orb_false_r in Hm. now apply negb_true_iff in Hm.
Qed.

Lemma read_class_show negated ms :
  ms <> [] ->
  Shell.members_ok negated true false ms = true ->
  Fnmatch.read_class (bang negated ++ Shell.show_members ms)
  = Fnmatch.GClass negated (map item ms).
Proof.
  intros Hne H. unfold Fnmatch.read_class.
  pose proof (mark_members negated ms true false H) as Hmark.
  cbn [orb] in Hmark.
  pose proof (remove_empty_toks negated ms true false H) as Hrem.
  destruct negated; cbn [bang app].
  - rewrite Ascii.eqb_refl. cbn [Fnmatch.mark]. rewrite Hmark.
    destruct (toks_head ms) as [E | (d & ts & E)].
    + destruct ms as [|[c|lo hi] rest]; [now elim Hne | discriminate E
                                        | discriminate E].
    + rewrite E in *. cbn [Fnmatch.remove_empty].
      cbn [Fnmatch.remove_empty] in Hrem. rewrite Hrem, Ascii.eqb_refl.
      now rewrite <- E, regex_items_toks.
  - pose proof (first_not_bang ms false H) as Hb.
    destruct (Shell.show_members ms) as [|c0 tl] eqn:Es.
    + destruct ms as [|[c|lo hi] rest]; [now elim Hne | discriminate Es
                                        | discriminate Es].
    + rewrite Hb, Hmark, Hrem.
      destruct (toks_head ms) as [E | (d & ts & E)].
      * destruct ms as [|[c|lo hi] rest]; [now elim Hne | discriminate E
                                          | discriminate E].
      * assert (d = c0).
        { destruct ms as [|[c|lo hi] rest]; cbn in E, Es; congruence. }
        subst d. rewrite E, Hb. now rewrite <- E, regex_items_toks.
Qed.

(** *** Finding the end of a class *)

Lemma split_close_app body rest :
  no_close body = true ->
  Fnmatch.split_close (body ++ "]"%char :: rest) = Some (body, rest).
Proof.
  induction body as [|c body IH]; intros H.
  - reflexivity.
  - cbn [no_close forallb] in H. apply andb_true_iff in H as [Hc Hb].
    apply negb_true_iff in Hc. cbn [app Fnmatch.split_close].
    now rewrite Hc, (IH Hb).
Qed.

Lemma split_close_none l :
  no_close l = true -> Fnmatch.split_close l = None.
Proof.
  induction l as [|c l IH]; intros H; [reflexivity|].
  cbn [no_close forallb] in H. apply andb_true_iff in H as [Hc Hl].
  apply negb_true_iff in Hc. cbn [Fnmatch.split_close].
  now rewrite Hc, (IH Hl).
Qed.

(** A ["["] with no ["]"] after it is not closed. *)
Lemma scan_class_none l : no_close l = true -> Fnmatch.scan_class l = None.
Proof.
  intros H. unfold Fnmatch.scan_class.
  destruct l as [|c l]; [reflexivity|].
  pose proof H as H'. cbn [no_close forallb] in H'.
  apply andb_true_iff in H' as [Hc Hl]. apply negb_true_iff in Hc.
  destruct (Ascii.eqb c "!").
  - destruct l as [|d l]; [reflexivity|].
    pose proof Hl as Hl'. cbn [forallb] in Hl'.
    apply andb_true_iff in Hl' as [Hd Hl']. apply negb_true_iff in Hd.
    rewrite Hd. now rewrite (split_close_none (d :: l) Hl).
  - rewrite Hc. now rewrite (split_close_none (c :: l) H).
Qed.

(** After the first member of a [seq] no ["]"] is written. *)
Lemma members_no_close negated ms : forall after_range,
  Shell.members_ok negated false after_range ms = true ->
  no_close (Shell.show_members ms) = true.
Proof.
  induction ms as [|m rest IH]; intros ar H; [reflexivity|].
  cbn [Shell.members_ok] in H. apply andb_true_iff in H as [Hm Hrest].
  specialize (IH _ Hrest).
  destruct m as [c|lo hi]; cbn [Shell.member_ok] in Hm;
    cbn [Shell.show_members flat_map Shell.show_member app];
    fold (Shell.show_members rest); cbn [no_close forallb];
    fold (no_close (Shell.show_members rest)); rewrite IH.
  - apply andb_true_iff in Hm as [Hm _]. apply andb_true_iff in Hm as [Hm _].
    rewrite orb_false_r in Hm. now rewrite Hm.
  - apply andb_true_iff in Hm as [Hm _]. apply andb_true_iff in Hm as [Hm _].
    apply andb_true_iff in Hm as [Hm Hhi]. apply andb_true_iff in Hm as [_ Hm].
    rewrite orb_false_r in Hm. now rewrite Hm, Hhi.
Qed.

(** The text of a [seq]: a first character, and then no ["]"]. *)
Lemma members_text negated ms :
  ms <> [] ->
  Shell.members_ok negated true false ms = true ->
  exists c tl, Shell.show_members ms = c :: tl /\ no_close tl = true.
Proof.
  intros Hne H. destruct ms as [|m rest]; [now elim Hne|].
  cbn [Shell.members_ok] in H. apply andb_true_iff in H as [Hm Hrest].
  apply members_no_close in Hrest.
  destruct m as [c|lo hi];
    cbn [Shell.show_members flat_map Shell.show_member app];
    fold (Shell.show_members rest).
  - now exists c, (Shell.show_members rest).
  - exists lo, ("-"%char :: hi :: Shell.show_members rest).
    split; [reflexivity|]. cbn [no_close forallb].
    fold (no_close (Shell.show_members rest)). rewrite Hrest.
    cbn [Shell.member_ok] in Hm.
    apply andb_true_iff in Hm as [Hm _]. apply andb_true_iff in Hm as [Hm _].
    apply andb_true_iff in Hm as [_ Hhi]. now rewrite Hhi.
Qed.

Lemma scan_class_show negated ms rest :
  ms <> [] ->
  Shell.members_ok negated true false ms = true ->
  Fnmatch.scan_class
    ((bang negated ++ Shell.show_members ms) ++ "]"%char :: rest)
  = Some (bang negated ++ Shell.show_members ms, rest).
Proof.
  intros Hne H.
  destruct (members_text negated ms Hne H) as (c & tl & E & Htl).
  assert (Hplain :
            forall pre,
              (let '(first, l2) :=
                 if Ascii.eqb c "]"%char
                 then ([c], tl ++ "]"%char :: rest)
                 else ([], c :: tl ++ "]"%char :: rest) in
               match Fnmatch.split_close l2 with
               | Some (body, r) => Some (pre ++ first ++ body, r)
               | None => None
               end) = Some (pre ++ c :: tl, rest)).
  { intros pre. destruct (Ascii.eqb c "]") eqn:Ec.
    - now rewrite (split_close_app tl rest Htl).
    - assert (Hb : no_close (c :: tl) = true)
        by (cbn [no_close forallb]; fold (no_close tl);
            now rewrite Ec, Htl).
      change (c :: tl ++ "]"%char :: rest)
        with ((c :: tl) ++ "]"%char :: rest).
      now rewrite (split_close_app (c :: tl) rest Hb). }
  unfold Fnmatch.scan_class. rewrite E.
  destruct negated; cbn [bang app].
  - rewrite Ascii.eqb_refl. exact (Hplain ["!"%char]).
  - pose proof (first_not_bang ms false H) as Hb. rewrite E in Hb.
    rewrite Hb. exact (Hplain []).
Qed.

(** *** [translate] on a pattern that is written in one way only *)

Lemma translate_show ps :
  Shell.well_formed ps = true ->
  forall fuel, List.length (Shell.show ps) <= fuel ->
  Fnmatch.translate_aux fuel (Shell.show ps) = map token ps.
Proof.
  induction ps as [|p ps IH]; intros H fuel Hfuel.
  - now destruct fuel.
  - cbn [Shell.well_formed] in H. apply andb_true_iff in H as [Hp Hps].
    specialize (IH Hps).
    cbn [Shell.show flat_map] in *. fold (Shell.show ps) in *.
    destruct p as [| |negated ms|c]; cbn [Shell.show_piece app] in *.
    + destruct fuel as [|fuel]; [cbn in Hfuel; lia|].
      cbn [List.length] in Hfuel. cbn [Fnmatch.translate_aux map token].
      rewrite (IH fuel) by lia. reflexivity.
    + destruct fuel as [|fuel]; [cbn in Hfuel; lia|].
      cbn [List.length] in Hfuel. cbn [Fnmatch.translate_aux map token].
      rewrite (IH fuel) by lia. reflexivity.
    + cbn [Shell.piece_ok] in Hp.
      assert (Hne : ms <> []) by (destruct ms; [discriminate Hp | easy]).
      assert (Hok : Shell.members_ok negated true false ms = true)
        by (destruct ms; [discriminate Hp | exact Hp]).
      destruct fuel as [|fuel]; [cbn in Hfuel; lia|].
      cbn [List.length] in Hfuel. rewrite !length_app in Hfuel.
      cbn [List.length] in Hfuel.
      replace (((if negated then ["!"%char] else [])
                ++ Shell.show_members ms ++ ["]"%char]) ++ Shell.show ps)
        with ((bang negated ++ Shell.show_members ms)
              ++ "]"%char :: Shell.show ps)
        by (unfold bang; now rewrite <- !app_assoc).
      cbn [Fnmatch.translate_aux map token].
      rewrite (scan_class_show negated ms _ Hne Hok).
      rewrite (read_class_show negated ms Hne Hok).
      rewrite (IH fuel) by lia. reflexivity.
    + cbn [Shell.piece_ok] in Hp.
      apply andb_true_iff in Hp as [Hp Hbr].
      apply andb_true_iff in Hp as [Hstar Hq].
      apply negb_true_iff in Hstar, Hq.
      destruct fuel as [|fuel]; [cbn in Hfuel; lia|].
      cbn [List.length] in Hfuel.
      cbn [Fnmatch.translate_aux map token]. rewrite Hstar, Hq.
      rewrite (IH fuel) by lia.
      destruct (Ascii.eqb c "[") eqn:Eb; [|reflexivity].
      cbn [negb orb] in Hbr.
      now rewrite (scan_class_none _ Hbr).
Qed.

(** *** The tokens say what the pattern says *)

Lemma item_has_spec c m :
  Fnmatch.item_has c (item m) = true <-> Shell.in_member c m.
Proof.
  destruct m as [a|lo hi]; cbn [item Fnmatch.item_has Shell.in_member].
  - rewrite Ascii.eqb_eq. split; congruence.
  - unfold Fnmatch.code. now rewrite andb_true_iff, !Nat.leb_le.
Qed.

Lemma in_seq_spec ms c :
  existsb (Fnmatch.item_has c) (map item ms) = true <-> Shell.in_seq ms c.
Proof.
  rewrite existsb_exists. unfold Shell.in_seq. split.
  - intros (it & Hin & Hit). apply in_map_iff in Hin as (m & <- & Hin).
    exists m. split; [exact Hin | now apply item_has_spec].
  - intros (m & Hin & Hm). exists (item m).
    split; [now apply in_map | now apply item_has_spec].
Qed.

Lemma class_has_spec negated ms c :
  Fnmatch.class_has negated (map item ms) c = true
  <-> Shell.in_class negated ms c.
Proof.
  unfold Fnmatch.class_has, Shell.in_class.
  destruct negated; cbn [xorb].
  - rewrite <- in_seq_spec.
    destruct (existsb _ _); cbn; split; congruence.
  - rewrite <- in_seq_spec. now destruct (existsb _ _).
Qed.

Lemma denotes_tokens ps : forall s,
  Shell.Denotes ps s <-> Fnmatch.Glob (map token ps) s.
Proof.
  induction ps as [|p ps IH]; intros s.
  - split; intros H; inversion H; constructor.
  - destruct p as [| |negated ms|c]; cbn [map token]; split; intros H;
      inversion H; subst; constructor;
      try (now apply IH); try (now apply class_has_spec).
Qed.

(** [fnmatchcase] gives a pattern that is written in one way only the
    meaning that the pattern has. *)
Lemma fnmatchcase_denotes ps name :
  Shell.well_formed ps = true ->
  (Fnmatch.fnmatchcase name (Shell.pattern ps) = true
   <-> Shell.matches ps name).
Proof.
  intros H. unfold Fnmatch.fnmatchcase, Fnmatch.translate, Shell.pattern,
    Shell.matches.
  rewrite list_ascii_of_string_of_list_ascii.
  rewrite (translate_show ps H) by reflexivity.
  rewrite FnmatchFacts.matches_Glob. symmetry. apply denotes_tokens.
Qed.

End ShellFacts.

(* ------------------------------------------------------------------ *)
(** ** The filter *)
(* ------------------------------------------------------------------ *)

Lemma py_eq_str v s : py_eq v (PyStr s) = true <-> v = PyStr s.
Proof.
  destruct v; simpl; try (split; [discriminate | intros H; discriminate H]).
  rewrite String.eqb_eq. split; [now intros -> | now intros [= ->]].
Qed.

(** Membership of a value in a list of strings. *)
Lemma str_list_contains v F :
  py_contains (str_list F) v =
  Ok (existsb (fun e => py_eq v e) (map PyStr F)).
Proof. reflexivity. Qed.

Lemma existsb_py_eq_str v F :
  existsb (fun e => py_eq v e) (map PyStr F) = true <->
  exists name, In name F /\ v = PyStr name.
Proof.
  rewrite existsb_exists. split.
  - intros (e & Hin & Heq). apply in_map_iff in Hin as (name & <- & Hin).
    apply py_eq_str in Heq. eauto.
  - intros (name & Hin & ->). exists (PyStr name). split.
    + now apply in_map.
    + now apply py_eq_str.
Qed.

Lemma event_tag tag data :
  py_getitem (mk_event tag data) "tag" = Ok (PyStr tag).
Proof. reflexivity. Qed.

Lemma event_data tag data :
  py_getitem (mk_event tag data) "data" = Ok (PyDict data).
Proof. reflexivity. Qed.

Lemma truthy_event tag data : truthy (mk_event tag data) = true.
Proof. reflexivity. Qed.

(** The [for] loop over string patterns ends with [found_match] set when
    it was set before or some pattern matched. *)
Lemma for_tags_str tag data (l : list string) : forall found_match,
  for_tags (mk_event tag data) (map PyStr l) found_match =
  Ok (found_match || existsb (Fnmatch.fnmatchcase tag) l).
Proof.
  induction l as [|p l IH]; intros fm; cbn [for_tags map].
  - now rewrite orb_false_r.
  - rewrite event_tag. cbn [res_bind Fnmatch.fnmatch]. rewrite IH.
    cbn [existsb].
    destruct (Fnmatch.fnmatchcase tag p), fm; reflexivity.
Qed.

Lemma tag_block_str tag data (P : option (list string)) publish :
  tag_block (mk_event tag data) (opt_str_list P) publish =
  Ok match P with
     | None | Some [] => publish
     | Some l => existsb (Fnmatch.fnmatchcase tag) l
     end.
Proof.
  destruct P as [[|p l]|]; try reflexivity.
  unfold tag_block, opt_str_list, str_list.
  change (truthy _ && isinstance_list _) with true. cbv iota.
  now rewrite for_tags_str.
Qed.

Lemma fun_block_falsy event funs publish :
  truthy funs = false -> fun_block event funs publish = Ok publish.
Proof. intros H. unfold fun_block. now rewrite H. Qed.

(** Without a ["fun"] key the function block leaves [publish] alone,
    whatever [funs] is. *)
Lemma fun_block_no_fun tag data funs publish :
  dict_get "fun" data = None ->
  fun_block (mk_event tag data) funs publish = Ok publish.
Proof.
  intros H. unfold fun_block. destruct (truthy funs); [|reflexivity].
  rewrite event_data. cbn [res_bind py_contains hashable].
  unfold dict_has. now rewrite H.
Qed.

(** With a ["fun"] key and a non-empty list of names, the function block
    clears [publish] unless the value is one of the names. *)
Lemma fun_block_fun tag data v F publish :
  dict_get "fun" data = Some v -> F <> [] ->
  fun_block (mk_event tag data) (str_list F) publish =
  Ok (existsb (fun e => py_eq v e) (map PyStr F) && publish).
Proof.
  intros H HF. unfold fun_block.
  replace (truthy (str_list F)) with true by (destruct F; [easy | reflexivity]).
  rewrite event_data. cbn [res_bind py_contains hashable].
  unfold dict_has. rewrite H. cbn [res_bind py_getitem].
  rewrite H. cbn [res_bind]. rewrite str_list_contains. cbn [res_bind].
  now destruct (existsb _ _).
Qed.

(** The function block can only clear [publish]. *)
Lemma fun_block_and event funs publish b :
  fun_block event funs true = Ok b ->
  fun_block event funs publish = Ok (publish && b).
Proof.
  unfold fun_block. destruct (truthy funs).
  - destruct (py_getitem event "data") as [d|]; simpl; [|discriminate].
    destruct (py_contains d (PyStr "fun")) as [[|]|]; simpl; try discriminate.
    + destruct (py_getitem d "fun") as [f|]; simpl; [|discriminate].
      destruct (py_contains funs f) as [[|]|]; simpl; try discriminate;
        intros [= <-]; now rewrite ?andb_true_r, ?andb_false_r.
    + intros [= <-]. now rewrite andb_true_r.
  - intros [= <-]. now rewrite andb_true_r.
Qed.

Lemma fun_block_raise event funs publish e :
  fun_block event funs true = Raise e ->
  fun_block event funs publish = Raise e.
Proof.
  unfold fun_block. destruct (truthy funs); [|discriminate].
  destruct (py_getitem event "data") as [d|]; simpl; [|easy].
  destruct (py_contains d (PyStr "fun")) as [[|]|]; simpl; try easy.
  destruct (py_getitem d "fun") as [f|]; simpl; [|easy].
  destruct (py_contains funs f) as [[|]|]; simpl; easy.
Qed.

(** [publish] is the conjunction of the two tests. *)
Lemma publish_conj event funs tags bt bf :
  tag_accepts event tags = Ok bt ->
  fun_accepts event funs = Ok bf ->
  publish event funs tags = Ok (bt && bf).
Proof.
  unfold tag_accepts, fun_accepts, publish. intros -> H.
  cbn [res_bind]. now apply fun_block_and.
Qed.

(** [C1] Tag filtering.  With no function allow-list configured (a
    [funs] that is [None], or empty), the decision is always reached, no
    exception is raised, and an event is published if and only if the
    list of patterns is absent or empty or [fnmatch] matches the event's
    tag against at least one of the patterns.  For patterns that are
    written in one way only that is shell matching, said without
    [fnmatch]: the event is published if and only if the list is empty or
    its tag is matched by one of the patterns, where [*] stands for any
    run of characters, [?] for one character, a class for one of its
    members (for one of the others when it is negated) and any other
    character for itself. *)
Theorem tag_filtering tag data (P : option (list string)) funs :
  truthy funs = false ->
  exists b,
    publish (mk_event tag data) funs (opt_str_list P) = Ok b /\
    (b = true <->
     P = None \/ P = Some [] \/
     exists l p, P = Some l /\ In p l /\ Fnmatch.fnmatchcase tag p = true) /\
    (forall pss,
       P = Some (map Shell.pattern pss) ->
       forallb Shell.well_formed pss = true ->
       (b = true <->
        pss = [] \/ exists ps, In ps pss /\ Shell.matches ps tag)).
Proof.
  intros Hf. unfold publish. rewrite tag_block_str. simpl res_bind.
  rewrite fun_block_falsy by exact Hf.
  eexists. split; [reflexivity|]. split.
  - destruct P as [[|p l]|].
    + split; [intros _; right; now left | reflexivity].
    + rewrite existsb_exists. split.
      * intros (q & Hin & Hm). right. right. now exists (p :: l), q.
      * intros [H | [H | (l' & q & [= <-] & Hin & Hm)]]; try discriminate.
        now exists q.
    + split; [intros _; now left | reflexivity].
  - intros pss -> Hwf. rewrite forallb_forall in Hwf.
    destruct pss as [|ps0 pss]; [split; [now left | reflexivity]|].
    cbn [map]. set (l := ps0 :: pss) in *.
    change (Shell.pattern ps0 :: map Shell.pattern pss)
      with (map Shell.pattern l).
    rewrite existsb_exists. split.
    + intros (q & Hin & Hm). right.
      apply in_map_iff in Hin as (ps & <- & Hin). exists ps.
      split; [exact Hin|].
      now apply (ShellFacts.fnmatchcase_denotes ps tag (Hwf ps Hin)).
    + intros [H | (ps & Hin & Hm)]; [discriminate H|].
      exists (Shell.pattern ps). split; [now apply in_map|].
      now apply (ShellFacts.fnmatchcase_denotes ps tag (Hwf ps Hin)).
Qed.

Lemma tag_filtering_witness :
  exists b,
    publish (mk_event "salt/job/123/new" [("fun", PyStr "test.ping")])
            PyNone
            (opt_str_list (Some ["salt/job/*/new"; "salt/key[0-9]?"]))
    = Ok b /\
    (b = true <->
     Some ["salt/job/*/new"; "salt/key[0-9]?"] = None \/
     Some ["salt/job/*/new"; "salt/key[0-9]?"] = Some [] \/
     exists l p, Some ["salt/job/*/new"; "salt/key[0-9]?"] = Some l /\
                 In p l /\
                 Fnmatch.fnmatchcase "salt/job/123/new" p = true) /\
    (forall pss,
       Some ["salt/job/*/new"; "salt/key[0-9]?"]
       = Some (map Shell.pattern pss) ->
       forallb Shell.well_formed pss = true ->
       (b = true <->
        pss = [] \/
        exists ps, In ps pss /\ Shell.matches ps "salt/job/123/new")).
Proof. apply (tag_filtering _ _ _ PyNone). reflexivity. Defined.

(** The two patterns of the example as pieces: they are written in one
    way only, their writing is the configured text, and the tag of a new
    job is matched by the first. *)
Example tag_filtering_pieces :
  let job := Shell.text "salt/job/" ++ [Shell.PStar] ++ Shell.text "/new" in
  let key :=
    Shell.text "salt/key"
    ++ [Shell.PClass false [Shell.MRange "0" "9"]; Shell.PAny] in
  map Shell.pattern [job; key] = ["salt/job/*/new"; "salt/key[0-9]?"] /\
  forallb Shell.well_formed [job; key] = true /\
  Shell.matches job "salt/job/123/new" /\
  Shell.matches key "salt/key7x" /\
  ~ Shell.matches key "salt/keyAx".
Proof.
  cbv zeta. split; [reflexivity|]. split; [reflexivity|].
  split; [|split].
  - apply ShellFacts.fnmatchcase_denotes; reflexivity.
  - apply ShellFacts.fnmatchcase_denotes; reflexivity.
  - intros H. apply ShellFacts.fnmatchcase_denotes in H; [|reflexivity].
    discriminate H.
Qed.

(** [C2] Function-name filtering is lenient.  When the event's data has
    no ["fun"] key, the decision is the same whatever [funs] is; when it
    has one and the allow-list is a non-empty list of names, the event is
    published only if the value of ["fun"] is one of the names. *)
Theorem fun_filter_lenient tag data tags :
  (dict_get "fun" data = None ->
   forall funs funs',
     publish (mk_event tag data) funs tags =
     publish (mk_event tag data) funs' tags) /\
  (forall v F,
     dict_get "fun" data = Some v -> F <> [] ->
     publish (mk_event tag data) (str_list F) tags = Ok true ->
     exists name, In name F /\ v = PyStr name).
Proof.
  split.
  - intros H funs funs'. unfold publish.
    destruct (tag_block _ tags true) as [p|e]; cbn [res_bind]; [|reflexivity].
    now rewrite !fun_block_no_fun.
  - intros v F H HF. unfold publish.
    destruct (tag_block _ tags true) as [p|e]; cbn [res_bind]; [|discriminate].
    rewrite (fun_block_fun _ _ v) by assumption.
    intros [= E]. apply andb_true_iff in E as [E _].
    now apply existsb_py_eq_str.
Qed.

Lemma fun_filter_lenient_witness :
  publish (mk_event "any/tag" []) (str_list ["probes.results"]) PyNone =
  publish (mk_event "any/tag" []) PyNone PyNone /\
  exists name, In name ["probes.results"; "bgp.config"] /\
               PyStr "bgp.config" = PyStr name.
Proof.
  split.
  - apply (proj1 (fun_filter_lenient "any/tag" [] PyNone)). reflexivity.
  - apply (proj2 (fun_filter_lenient "any/tag" [("fun", PyStr "bgp.config")]
                                     PyNone)).
    + reflexivity.
    + discriminate.
    + reflexivity.
Defined.

(** The third scenario of the specification: with
    [funs = ["probes.results"]] an event whose function is another one is
    dropped, an event with no function is published. *)
Example scenario_funs :
  publish (mk_event "any/tag" [("fun", PyStr "other.fn")])
          (str_list ["probes.results"]) PyNone = Ok false /\
  publish (mk_event "any/tag" []) (str_list ["probes.results"]) PyNone
  = Ok true.
Proof. split; reflexivity. Qed.

(** [C10] Tags that are not a list are not used.  When [tags] is truthy
    but not a list (a string, a tuple of patterns), the tag block leaves
    [publish] as it is for every event, whatever its tag: the tag test
    accepts, and the decision is that of the function block. *)
Theorem non_list_tags_bypass tags :
  truthy tags = true -> isinstance_list tags = false ->
  forall event funs,
    (forall p, tag_block event tags p = Ok p) /\
    tag_accepts event tags = Ok true /\
    publish event funs tags = fun_accepts event funs.
Proof.
  intros Ht Hl event funs.
  assert (H : forall p, tag_block event tags p = Ok p).
  { intros p. unfold tag_block. now rewrite Ht, Hl. }
  repeat split; [exact H | apply H |].
  unfold publish, fun_accepts. now rewrite H.
Qed.

Lemma non_list_tags_bypass_witness :
  (forall p, tag_block (mk_event "salt/auth" [])
                       (PyTuple [PyStr "salt/job/*/new"]) p = Ok p) /\
  tag_accepts (mk_event "salt/auth" []) (PyTuple [PyStr "salt/job/*/new"])
  = Ok true /\
  publish (mk_event "salt/auth" []) PyNone (PyTuple [PyStr "salt/job/*/new"])
  = fun_accepts (mk_event "salt/auth" []) PyNone.
Proof.
  apply (non_list_tags_bypass (PyTuple [PyStr "salt/job/*/new"]));
    reflexivity.
Defined.

Example string_tags_bypass :
  publish (mk_event "salt/auth" []) PyNone (PyStr "salt/job/*/new") = Ok true /\
  publish (mk_event "salt/auth" []) PyNone (str_list ["salt/job/*/new"])
  = Ok false.
Proof. split; reflexivity. Qed.

(* ------------------------------------------------------------------ *)
(** ** The loop *)
(* ------------------------------------------------------------------ *)

Section Properties.

Variable World : Type.
Variable bus_open : string -> pyval -> pyval -> World -> res unit * World.
Variable bus_get_event : bool -> World -> res pyval * World.
Variable bus_close : World -> World.
Variable http_query : request -> World -> res pyval * World.
Variable json_dumps : pyval -> res string.
Variable opts : list (string * pyval).

Abbreviation logstash := (_logstash World http_query json_dumps opts).
Abbreviation handle := (handle_event World http_query json_dumps opts).
Abbreviation turn := (iteration World bus_get_event http_query json_dumps opts).
Abbreviation turns := (loop World bus_get_event http_query json_dumps opts).
Abbreviation engine :=
  (start World bus_open bus_get_event bus_close http_query json_dumps opts).
Abbreviation call :=
  (call_start World bus_open bus_get_event bus_close http_query json_dumps
              opts).
Abbreviation post := (post_request opts).

Lemma prepend_nil A (r : run World A) : prepend [] r = r.
Proof. now destruct r. Qed.

Lemma bind_ok A B (m : M World A) (k : A -> M World B) w a :
  result (m w) = Ok a ->
  bind m k w = prepend (trace (m w)) (k a (final (m w))).
Proof. intros H. unfold bind, prepend. now rewrite H. Qed.

Lemma bind_raise A B (m : M World A) (k : A -> M World B) w e :
  result (m w) = Raise e ->
  bind m k w = mk_run (Raise e) (final (m w)) (trace (m w)).
Proof. intros H. unfold bind. now rewrite H. Qed.

(** [_logstash]: nothing happens when [dumps] raises; otherwise one
    query is made and its outcome is the outcome of the call. *)
Lemma logstash_run url data w :
  logstash url data w =
  match json_dumps data with
  | Ok body =>
      mk_run (fst (http_query (post url body) w))
             (snd (http_query (post url body) w))
             [EQuery (post url body)]
  | Raise e => mk_run (Raise e) w []
  end.
Proof.
  unfold _logstash, bind, lift, query, perform, ret, post_request.
  destruct (json_dumps data) as [body|e]; cbn; [|reflexivity].
  destruct (fst (http_query _ w)); reflexivity.
Qed.

(** The call of line 123, its result dropped. *)
Lemma logstash_then_ret url data w :
  bind (logstash url data) (fun _ => ret tt) w =
  match json_dumps data with
  | Ok body =>
      mk_run (res_bind (fst (http_query (post url body) w))
                       (fun _ => Ok tt))
             (snd (http_query (post url body) w))
             [EQuery (post url body)]
  | Raise e => mk_run (Raise e) w []
  end.
Proof.
  unfold bind. rewrite logstash_run.
  destruct (json_dumps data) as [body|e]; cbn; [|reflexivity].
  destruct (fst (http_query _ w)); reflexivity.
Qed.

(** The body of the loop, by cases on the decision. *)
Lemma handle_run url funs tags event w :
  handle url funs tags event w =
  if truthy event then
    match publish event funs tags with
    | Ok true =>
        match py_getitem event "data" with
        | Ok data => bind (logstash url data) (fun _ => ret tt) w
        | Raise e => mk_run (Raise e) w []
        end
    | Ok false => mk_run (Ok tt) w []
    | Raise e => mk_run (Raise e) w []
    end
  else mk_run (Ok tt) w [].
Proof.
  unfold handle_event. destruct (truthy event); [|reflexivity].
  destruct (publish event funs tags) as [[|]|e]; try reflexivity.
  destruct (py_getitem event "data") as [data|e]; [|reflexivity].
  unfold bind at 1 2. cbn.
  rewrite logstash_then_ret.
  destruct (json_dumps data); cbn; [|reflexivity].
  destruct (fst (http_query _ w)); reflexivity.
Qed.

Lemma queries_logstash url data w :
  queries (trace (bind (logstash url data) (fun _ => ret tt) w)) =
  if dumps_ok (json_dumps data) then 1 else 0.
Proof.
  rewrite logstash_then_ret. now destruct (json_dumps data).
Qed.

(** Handling one event makes at most one query and does not read the
    bus. *)
Lemma handle_effects url funs tags event w :
  queries (trace (handle url funs tags event w)) <= 1 /\
  reads (trace (handle url funs tags event w)) = 0 /\
  Forall (fun e => is_query e = true) (trace (handle url funs tags event w)).
Proof.
  rewrite handle_run.
  destruct (truthy event); [|cbn; auto].
  destruct (publish event funs tags) as [[|]|e]; try (cbn; auto).
  destruct (py_getitem event "data") as [data|e]; [|cbn; auto].
  rewrite logstash_then_ret.
  destruct (json_dumps data); cbn; auto.
Qed.

Lemma turn_run url funs tags w :
  turn url funs tags w =
  match fst (bus_get_event true w) with
  | Ok event =>
      prepend [EGetEvent true]
              (handle url funs tags event (snd (bus_get_event true w)))
  | Raise e => mk_run (Raise e) (snd (bus_get_event true w)) [EGetEvent true]
  end.
Proof.
  unfold iteration, bind, get_event, perform, prepend. cbn.
  destruct (fst (bus_get_event true w)); reflexivity.
Qed.

Lemma turns_S n url funs tags w :
  turns (S n) url funs tags w =
  match result (turn url funs tags w) with
  | Ok _ =>
      prepend (trace (turn url funs tags w))
              (turns n url funs tags (final (turn url funs tags w)))
  | Raise e =>
      mk_run (Raise e) (final (turn url funs tags w))
             (trace (turn url funs tags w))
  end.
Proof. reflexivity. Qed.


Lemma queries_app t t' : queries (t ++ t') = queries t + queries t'.
Proof. unfold queries. now rewrite filter_app, length_app. Qed.

Lemma reads_app t t' : reads (t ++ t') = reads t + reads t'.
Proof. unfold reads. now rewrite filter_app, length_app. Qed.

(** One turn of the loop reads the bus once and makes at most one
    query. *)
Lemma turn_effects url funs tags w :
  queries (trace (turn url funs tags w)) <= 1 /\
  reads (trace (turn url funs tags w)) = 1 /\
  Forall (fun e => is_open e = false) (trace (turn url funs tags w)).
Proof.
  rewrite turn_run. destruct (fst (bus_get_event true w)) as [event|e].
  - destruct (handle_effects url funs tags event (snd (bus_get_event true w)))
      as (Hq & Hr & Hall).
    unfold prepend. cbn [trace]. rewrite queries_app, reads_app, Hr.
    repeat split; cbn; auto.
    constructor; [reflexivity|].
    eapply Forall_impl; [|exact Hall]. now intros [].
  - cbn. repeat split; auto.
Qed.

Lemma turns_effects url funs tags n : forall w,
  queries (trace (turns n url funs tags w))
  <= reads (trace (turns n url funs tags w)) /\
  Forall (fun e => is_open e = false) (trace (turns n url funs tags w)).
Proof.
  induction n as [|n IH]; intros w.
  - cbn. auto.
  - rewrite turns_S.
    destruct (turn_effects url funs tags w) as (Hq & Hr & Hall).
    destruct (result (turn url funs tags w)).
    + destruct (IH (final (turn url funs tags w))) as [IHq IHall].
      unfold prepend. cbn [trace]. rewrite queries_app, reads_app.
      split; [lia | now apply Forall_app].
    + cbn [trace]. split; [lia | exact Hall].
Qed.

(** [C3] Conjunction and at-most-once delivery.  For an event read from
    the bus, [_logstash] is called exactly when the tag test and the
    function test both accept, and with the event's data; handling an
    event makes one HTTP query when both accept and the data serializes,
    and none otherwise; the loop never makes more queries than it has
    read events. *)
Theorem conjunction_at_most_once url funs tags :
  (forall event bt bf data w,
     truthy event = true ->
     tag_accepts event tags = Ok bt ->
     fun_accepts event funs = Ok bf ->
     py_getitem event "data" = Ok data ->
     handle url funs tags event w =
       (if bt && bf
        then bind (logstash url data) (fun _ => ret tt) w
        else ret tt w) /\
     queries (trace (handle url funs tags event w)) =
       (if bt && bf && dumps_ok (json_dumps data) then 1 else 0)) /\
  (forall event w, queries (trace (handle url funs tags event w)) <= 1) /\
  (forall n w,
     queries (trace (turns n url funs tags w))
     <= reads (trace (turns n url funs tags w))).
Proof.
  split; [|split].
  - intros event bt bf data w Ht Hbt Hbf Hd.
    rewrite handle_run, Ht, (publish_conj _ _ _ _ _ Hbt Hbf), Hd.
    destruct (bt && bf); split; try reflexivity.
    now rewrite queries_logstash.
  - intros event w. apply handle_effects.
  - intros n w. apply turns_effects.
Qed.

(** [C4], as the code has it.  Once an accepted event is handed to
    [_logstash], what the loop does is decided by how the delivery ends:
    when the HTTP helper returns, whatever the result it reports, the
    turn ends normally and the loop goes on to the next event; when the
    serializer or the HTTP helper raises, nothing catches the exception
    and it leaves the loop. *)
Theorem delivery_outcomes url funs tags event data w :
  fst (bus_get_event true w) = Ok event ->
  truthy event = true ->
  publish event funs tags = Ok true ->
  py_getitem event "data" = Ok data ->
  match json_dumps data with
  | Ok body =>
      let rq := post url body in
      let w1 := snd (bus_get_event true w) in
      match fst (http_query rq w1) with
      | Ok _ =>
          forall n,
            turns (S n) url funs tags w =
            prepend [EGetEvent true; EQuery rq]
                    (turns n url funs tags (snd (http_query rq w1)))
      | Raise e =>
          forall n,
            turns (S n) url funs tags w =
            mk_run (Raise e) (snd (http_query rq w1))
                   [EGetEvent true; EQuery rq]
      end
  | Raise e =>
      forall n,
        turns (S n) url funs tags w =
        mk_run (Raise e) (snd (bus_get_event true w)) [EGetEvent true]
  end.
Proof.
  intros Hev Ht Hp Hd.
  assert (E : turn url funs tags w =
              prepend [EGetEvent true]
                (bind (logstash url data) (fun _ => ret tt)
                      (snd (bus_get_event true w)))).
  { now rewrite turn_run, Hev, handle_run, Ht, Hp, Hd. }
  rewrite logstash_then_ret in E.
  destruct (json_dumps data) as [body|e].
  - cbv zeta. destruct (fst (http_query _ _)) as [r|e];
      intros n; rewrite turns_S, E; reflexivity.
  - intros n. rewrite turns_S, E. reflexivity.
Qed.


(** [C6] Role selection.  When [__opts__] holds a string as ["id"] (and
    the socket directory and transport that the subscription needs), the
    first thing [start] does is to open the subscription, and it opens it
    once: as ["master"] if and only if the id ends with ["_master"], and
    as ["minion"] otherwise. *)
Theorem role_selection ident sock_dir transport n url funs tags w :
  dict_get "id" opts = Some (PyStr ident) ->
  dict_get "sock_dir" opts = Some sock_dir ->
  dict_get "transport" opts = Some transport ->
  exists instance rest,
    trace (engine n url funs tags w)
    = EOpen instance sock_dir transport :: rest /\
    filter is_open rest = [] /\
    (instance = "master" <-> exists p, ident = (p ++ "_master")%string) /\
    (instance = "minion" <-> ~ exists p, ident = (p ++ "_master")%string).
Proof.
  intros Hid Hsd Htr.
  set (is_master := Str.endswith ident "_master").
  exists (if is_master then "master" else "minion").
  assert (Hclosed : forall t : list effect,
             Forall (fun e => is_open e = false) t -> filter is_open t = []).
  { induction 1 as [|e t He _ IH]; cbn; [reflexivity | now rewrite He]. }
  assert (Hrun : exists rest,
             trace (engine n url funs tags w)
             = EOpen (if is_master then "master" else "minion")
                     sock_dir transport :: rest /\
             filter is_open rest = []).
  { unfold start, select_instance, opts_get, with_event_bus. rewrite Hid.
    cbn [py_endswith res_bind py_getitem]. fold is_master.
    rewrite Hsd, Htr. unfold bind, lift, open_event_bus, perform.
    cbn [result final trace app].
    destruct (fst (bus_open _ sock_dir transport w)); cbn [result final trace app].
    - destruct (turns_effects url funs tags n
                  (snd (bus_open (if is_master then "master" else "minion")
                                 sock_dir transport w))) as [_ Hall].
      destruct (result (turns n url funs tags _)); cbn [result final trace app].
      + eexists. split; [reflexivity | now apply Hclosed].
      + eexists. split; [reflexivity|]. apply Hclosed, Forall_app.
        split; [exact Hall | now repeat constructor].
    - eexists. split; reflexivity. }
  destruct Hrun as (rest & Hrun & Hrest). exists rest.
  split; [exact Hrun | split; [exact Hrest|]].
  rewrite <- StrFacts.endswith_spec. fold is_master.
  destruct is_master; split; split; try easy; intros H; now elim H.
Qed.

(** [C7] Missing URL.  A call of [start] that gives no [url] raises
    [TypeError] when the arguments are bound, before the body of [start]
    runs: the subscription is not opened, no event is read, no query is
    made and the world is as it was. *)
Theorem missing_url n kwargs w :
  dict_get "url" kwargs = None ->
  call n kwargs w = mk_run (Raise TypeError) w [].
Proof.
  intros H. unfold call_start, bind_start_args, bind, lift.
  rewrite H. cbn [result]. now destruct (forallb _ kwargs).
Qed.

(** [C8] Only the data is forwarded.  For an accepted event, line 123
    calls [_logstash] with the event's ["data"] and nothing else: the
    body of every query made is the serialization of the data, and an
    accepted event with the same data under another tag is handled in
    the same way. *)
Theorem only_data_forwarded url funs tags tag data w :
  publish (mk_event tag data) funs tags = Ok true ->
  handle url funs tags (mk_event tag data) w
  = bind (logstash url (PyDict data)) (fun _ => ret tt) w /\
  (forall rq,
     In (EQuery rq) (trace (handle url funs tags (mk_event tag data) w)) ->
     json_dumps (PyDict data) = Ok (rq_data rq)) /\
  (forall tag',
     publish (mk_event tag' data) funs tags = Ok true ->
     handle url funs tags (mk_event tag' data) w
     = handle url funs tags (mk_event tag data) w).
Proof.
  intros Hp.
  assert (E : forall t, publish (mk_event t data) funs tags = Ok true ->
              handle url funs tags (mk_event t data) w
              = bind (logstash url (PyDict data)) (fun _ => ret tt) w).
  { intros t H. now rewrite handle_run, truthy_event, H, event_data. }
  repeat split.
  - now apply E.
  - intros rq. rewrite (E _ Hp), logstash_then_ret.
    destruct (json_dumps (PyDict data)) as [body|e]; cbn [trace In].
    + intros [H | []]. injection H as <-. reflexivity.
    + intros [].
  - intros tag' H. now rewrite (E _ H), (E _ Hp).
Qed.

(** [C9] Null events are skipped.  When [get_event] returns a value that
    is not truthy ([None], an empty record), the turn of the loop does
    nothing more: no test of the filter runs, so nothing can raise, no
    query is made, and the loop goes on to read the next event. *)
Theorem null_event_skip url funs tags event w :
  fst (bus_get_event true w) = Ok event ->
  truthy event = false ->
  handle url funs tags event (snd (bus_get_event true w))
  = ret tt (snd (bus_get_event true w)) /\
  turn url funs tags w
  = mk_run (Ok tt) (snd (bus_get_event true w)) [EGetEvent true] /\
  (forall n,
     turns (S n) url funs tags w
     = prepend [EGetEvent true]
               (turns n url funs tags (snd (bus_get_event true w)))).
Proof.
  intros Hev Ht.
  assert (Hh : forall w', handle url funs tags event w' = ret tt w').
  { intros w'. now rewrite handle_run, Ht. }
  assert (Hturn : turn url funs tags w
                  = mk_run (Ok tt) (snd (bus_get_event true w))
                           [EGetEvent true]).
  { now rewrite turn_run, Hev, Hh. }
  repeat split; auto.
  intros n. now rewrite turns_S, Hturn.
Qed.


(** *** Events that lack a key *)

(** [X7] An event with no ["tag"] key: a non-empty list of patterns makes the
    tag test raise [KeyError]; with any other [tags] the key is never
    read and the test accepts. *)
Theorem event_without_tag d tags :
  dict_get "tag" d = None ->
  tag_accepts (PyDict d) tags
  = if truthy tags && isinstance_list tags then Raise KeyError else Ok true.
Proof.
  intros H. unfold tag_accepts, tag_block.
  destruct tags as [| | | | |[|t l]| |]; cbn [truthy isinstance_list];
    rewrite ?andb_false_r; try reflexivity.
  cbn [andb for_tags py_getitem]. now rewrite H.
Qed.


(** *** The whole of [start] *)

Lemma start_run n url funs tags w :
  engine n url funs tags w =
  match select_instance opts with
  | Raise e => mk_run (Raise e) w []
  | Ok inst =>
      match py_getitem (PyDict opts) "sock_dir" with
      | Raise e => mk_run (Raise e) w []
      | Ok sd =>
          match py_getitem (PyDict opts) "transport" with
          | Raise e => mk_run (Raise e) w []
          | Ok tr =>
              match fst (bus_open inst sd tr w) with
              | Raise e =>
                  mk_run (Raise e) (snd (bus_open inst sd tr w))
                         [EOpen inst sd tr]
              | Ok _ =>
                  let r := turns n url funs tags (snd (bus_open inst sd tr w)) in
                  match result r with
                  | Ok _ => prepend [EOpen inst sd tr] r
                  | Raise e =>
                      mk_run (Raise e) (bus_close (final r))
                             (EOpen inst sd tr :: trace r ++ [EClose])
                  end
              end
          end
      end
  end.
Proof.
  unfold start, with_event_bus, bind, lift, open_event_bus, close_event_bus,
    perform, prepend.
  destruct (select_instance opts) as [inst|e]; cbn; [|reflexivity].
  destruct (dict_get "sock_dir" opts) as [sd|]; cbn; [|reflexivity].
  destruct (dict_get "transport" opts) as [tr|]; cbn; [|reflexivity].
  destruct (fst (bus_open inst sd tr w)); cbn; [|reflexivity].
  destruct (result (turns n url funs tags _)) eqn:E; cbn; rewrite ?E;
    reflexivity.
Qed.

(** The loop has no other effects than reads and queries. *)
Lemma turns_only url funs tags n : forall w,
  Forall (fun e => is_query e || is_get_event e = true)
         (trace (turns n url funs tags w)).
Proof.
  induction n as [|n IH]; intros w; [constructor|].
  assert (Hturn : Forall (fun e => is_query e || is_get_event e = true)
                         (trace (turn url funs tags w))).
  { rewrite turn_run. destruct (fst (bus_get_event true w)) as [event|e].
    - cbn [prepend trace app]. constructor; [reflexivity|].
      destruct (handle_effects url funs tags event
                  (snd (bus_get_event true w))) as (_ & _ & Hall).
      eapply Forall_impl; [|exact Hall]. cbn. now intros a ->.
    - cbn. now repeat constructor. }
  rewrite turns_S. destruct (result (turn url funs tags w)).
  - cbn [prepend trace]. apply Forall_app. split; [exact Hturn | apply IH].
  - exact Hturn.
Qed.

Lemma closes_turns url funs tags n w :
  closes (trace (turns n url funs tags w)) = 0.
Proof.
  unfold closes.
  induction (turns_only url funs tags n w) as [|e t He _ IH];
    [reflexivity|].
  cbn [filter]. now destruct e.
Qed.

Lemma closes_app t t' : closes (t ++ t') = closes t + closes t'.
Proof. unfold closes. now rewrite filter_app, length_app. Qed.

(** [X9] [start] fails before it opens the subscription when [__opts__] has
    no ["id"] ([None] has no [endswith]: [AttributeError]) and when it
    has no ["sock_dir"] or no ["transport"] ([KeyError]): nothing has
    been done by then and the world is as it was. *)
Theorem startup_failures n url funs tags w :
  (dict_get "id" opts = None ->
   engine n url funs tags w = mk_run (Raise AttributeError) w []) /\
  (forall ident,
     dict_get "id" opts = Some (PyStr ident) ->
     dict_get "sock_dir" opts = None \/ dict_get "transport" opts = None ->
     engine n url funs tags w = mk_run (Raise KeyError) w []).
Proof.
  split.
  - intros H. rewrite start_run. unfold select_instance, opts_get.
    now rewrite H.
  - intros ident H Hk. rewrite start_run. unfold select_instance, opts_get.
    rewrite H. cbn [py_endswith res_bind py_getitem].
    destruct Hk as [Hk | Hk]; rewrite Hk; [reflexivity|].
    now destruct (dict_get "sock_dir" opts).
Qed.

(** [X10] Once the subscription is open, [start] leaves it open as long as the
    loop runs, and closes it exactly once, as its last effect, when an
    exception leaves the loop; the exception then goes on to the
    caller. *)
Theorem subscription_released inst sd tr n url funs tags w :
  select_instance opts = Ok inst ->
  dict_get "sock_dir" opts = Some sd ->
  dict_get "transport" opts = Some tr ->
  fst (bus_open inst sd tr w) = Ok tt ->
  let body := turns n url funs tags (snd (bus_open inst sd tr w)) in
  match result body with
  | Ok _ =>
      engine n url funs tags w = prepend [EOpen inst sd tr] body /\
      closes (trace (engine n url funs tags w)) = 0
  | Raise e =>
      engine n url funs tags w
      = mk_run (Raise e) (bus_close (final body))
               (EOpen inst sd tr :: trace body ++ [EClose]) /\
      closes (trace (engine n url funs tags w)) = 1 /\
      closes (trace body) = 0
  end.
Proof.
  intros Hi Hsd Htr Ho body. rewrite start_run, Hi. cbn [py_getitem].
  rewrite Hsd, Htr, Ho. cbv zeta. fold body.
  pose proof (closes_turns url funs tags n (snd (bus_open inst sd tr w)))
    as Hc. fold body in Hc.
  destruct (result body).
  - split; [reflexivity|]. unfold prepend. cbn [trace].
    now rewrite closes_app, Hc.
  - repeat split; [|exact Hc].
    cbn [trace]. change (EOpen inst sd tr :: trace body ++ [EClose])
      with ([EOpen inst sd tr] ++ trace body ++ [EClose]).
    now rewrite !closes_app, Hc.
Qed.

(** [X11] An exception of [get_event] is not caught: it leaves the loop at
    once, before any filtering or delivery, the subscription is closed
    and [start] raises it. *)
Theorem get_event_failure inst sd tr n url funs tags w e :
  select_instance opts = Ok inst ->
  dict_get "sock_dir" opts = Some sd ->
  dict_get "transport" opts = Some tr ->
  fst (bus_open inst sd tr w) = Ok tt ->
  fst (bus_get_event true (snd (bus_open inst sd tr w))) = Raise e ->
  engine (S n) url funs tags w
  = mk_run (Raise e)
           (bus_close (snd (bus_get_event true (snd (bus_open inst sd tr w)))))
           [EOpen inst sd tr; EGetEvent true; EClose].
Proof.
  intros Hi Hsd Htr Ho Hg. rewrite start_run, Hi. cbn [py_getitem].
  rewrite Hsd, Htr, Ho. cbv zeta. rewrite turns_S, turn_run, Hg.
  reflexivity.
Qed.

(** [X12] Whatever happens, [start] reads the bus with [full=True] only and
    every query it makes is the POST of [_logstash] to the [url] it was
    given, with the headers [_HEADERS]. *)
Theorem engine_effects n url funs tags w :
  Forall (engine_effect opts url) (trace (engine n url funs tags w)).
Proof.
  assert (Hh : forall event w',
             Forall (engine_effect opts url)
                    (trace (handle url funs tags event w'))).
  { intros event w'. rewrite handle_run.
    destruct (truthy event); [|constructor].
    destruct (publish event funs tags) as [[|]|]; try constructor.
    destruct (py_getitem event "data") as [data|]; [|constructor].
    rewrite logstash_then_ret.
    destruct (json_dumps data) as [body|]; [|constructor].
    repeat constructor. now exists body. }
  assert (Ht : forall k w',
             Forall (engine_effect opts url)
                    (trace (turns k url funs tags w'))).
  { induction k as [|k IH]; intros w'; [constructor|].
    rewrite turns_S, turn_run.
    destruct (fst (bus_get_event true w')) as [event|].
    - specialize (Hh event (snd (bus_get_event true w'))).
      destruct (result (prepend _ _)); cbn [prepend trace].
      + apply Forall_app. split; [|apply IH].
        apply Forall_app. split; [now repeat constructor | exact Hh].
      + apply Forall_app. split; [now repeat constructor | exact Hh].
    - cbn. now repeat constructor. }
  rewrite start_run.
  destruct (select_instance opts) as [inst|]; [|constructor].
  destruct (py_getitem (PyDict opts) "sock_dir") as [sd|]; [|constructor].
  destruct (py_getitem (PyDict opts) "transport") as [tr|]; [|constructor].
  destruct (fst (bus_open inst sd tr w)); [|now repeat constructor].
  cbv zeta. specialize (Ht n (snd (bus_open inst sd tr w))).
  destruct (result (turns n url funs tags _)); cbn [prepend trace].
  - apply Forall_app. split; [now repeat constructor | exact Ht].
  - constructor; [exact I|]. apply Forall_app.
    split; [exact Ht | now repeat constructor].
Qed.

(** *** The turns of the loop *)

(** One turn is a read, followed by a query or by nothing. *)
Lemma turn_shape url funs tags w :
  trace (turn url funs tags w) = [EGetEvent true] \/
  exists rq, trace (turn url funs tags w) = [EGetEvent true; EQuery rq].
Proof.
  rewrite turn_run. destruct (fst (bus_get_event true w)) as [event|e];
    [|now left].
  rewrite handle_run. cbn [prepend trace].
  destruct (truthy event); [|now left].
  destruct (publish event funs tags) as [[|]|]; try now left.
  destruct (py_getitem event "data") as [data|]; [|now left].
  rewrite logstash_then_ret.
  destruct (json_dumps data) as [body|]; [|now left].
  right. now eexists.
Qed.

(** [X13] The loop works through the events one at a time: its trace is a
    run of reads, each followed by at most one query, so a query is
    never made before the event is read and never twice in a row; as
    long as no exception leaves it, the loop has read the bus once per
    turn. *)
Theorem loop_is_sequential url funs tags n : forall w,
  sequential (trace (turns n url funs tags w)) = true /\
  (result (turns n url funs tags w) = Ok tt ->
   reads (trace (turns n url funs tags w)) = n).
Proof.
  induction n as [|n IH]; intros w; [now split|].
  rewrite turns_S.
  destruct (turn_effects url funs tags w) as (_ & Hr & _).
  destruct (result (turn url funs tags w)) as [u|e].
  - destruct (IH (final (turn url funs tags w))) as [Hs Hn].
    cbn [prepend trace result]. split.
    + destruct (turn_shape url funs tags w) as [-> | [rq ->]].
      * cbn [app sequential].
        destruct (trace (turns n url funs tags _)) as [|e t] eqn:E;
          [reflexivity|].
        destruct e; try exact Hs.
        cbn [sequential] in Hs. discriminate Hs.
      * exact Hs.
    + intros H. rewrite reads_app, Hr, (Hn H). reflexivity.
  - cbn [trace result]. split; [|discriminate].
    now destruct (turn_shape url funs tags w) as [-> | [rq ->]].
Qed.

(** Turns compose: [n + m] turns are [n] turns followed by [m] turns
    from where they end, and an exception that has left the loop is
    final, however many more turns are allowed. *)
Theorem turns_add url funs tags n m : forall w,
  turns (n + m) url funs tags w =
  match result (turns n url funs tags w) with
  | Ok _ =>
      prepend (trace (turns n url funs tags w))
              (turns m url funs tags (final (turns n url funs tags w)))
  | Raise _ => turns n url funs tags w
  end.
Proof.
  induction n as [|n IH]; intros w.
  - cbn [Nat.add loop ret result final trace]. now rewrite prepend_nil.
  - change (S n + m) with (S (n + m)). rewrite !turns_S.
    destruct (result (turn url funs tags w)) as [u|e] eqn:E.
    + rewrite IH. cbn [prepend result final trace].
      destruct (result (turns n url funs tags _)); [|reflexivity].
      unfold prepend. cbn [result final trace]. now rewrite app_assoc.
    + reflexivity.
Qed.

End Properties.

(* ------------------------------------------------------------------ *)
(** ** The engine at work in the scripted world *)
(* ------------------------------------------------------------------ *)

(** The first two scenarios of the specification, with
    [tags = ["salt/job/*/new"]]: the new-job event is published, the
    return event is dropped. *)
Example scenario_tags :
  publish Script.job_event PyNone (str_list ["salt/job/*/new"]) = Ok true /\
  publish (mk_event "salt/job/123/ret/0" []) PyNone
          (str_list ["salt/job/*/new"]) = Ok false.
Proof. split; reflexivity. Qed.

(** The fourth scenario: the endpoint answers 500 to the first delivery
    and the next event is delivered all the same. *)
Example scenario_500 :
  let r :=
    loop Script.world Script.bus_get_event Script.http_query Script.dumps
         Script.opts 2 Script.url PyNone PyNone
         (Script.mk_world [Ok Script.job_event; Ok Script.job_event]
                          [Ok (Script.status 500)] false) in
  result r = Ok tt /\ queries (trace r) = 2 /\ reads (trace r) = 2.
Proof. repeat split. Qed.

(** A [url] that is given as [None] is not refused when [start] is
    called: the loop runs, and [None] is what the HTTP helper is handed. *)
Example none_url_enters_loop :
  trace (call_start Script.world Script.bus_open Script.bus_get_event
           Script.bus_close Script.http_query Script.dumps Script.opts
           1 [("url", PyNone)] Script.job_world)
  = [EOpen "minion" (PyStr "/var/run/salt/minion") (PyStr "zeromq");
     EGetEvent true;
     EQuery (post_request Script.opts PyNone
               (Script.dumps_text (PyDict [("fun", PyStr "test.ping")])))].
Proof. reflexivity. Qed.

Lemma conjunction_at_most_once_witness :
  queries
    (trace (handle_event Script.world Script.http_query Script.dumps
              Script.opts Script.url (str_list ["test.ping"])
              (str_list ["salt/job/*/new"]) Script.job_event
              Script.job_world)) = 1.
Proof.
  exact (proj2
           (proj1 (conjunction_at_most_once
                     Script.world Script.bus_get_event Script.http_query
                     Script.dumps Script.opts Script.url
                     (str_list ["test.ping"]) (str_list ["salt/job/*/new"]))
                  Script.job_event true true
                  (PyDict [("fun", PyStr "test.ping")]) Script.job_world
                  eq_refl eq_refl eq_refl eq_refl)).
Defined.

(** A 500 from the endpoint: the turn ends normally and the loop reads
    the bus again. *)
Lemma delivery_outcomes_witness :
  loop Script.world Script.bus_get_event Script.http_query Script.dumps
       Script.opts 2 Script.url PyNone PyNone Script.job_world
  = prepend
      [EGetEvent true;
       EQuery (post_request Script.opts Script.url
                 (Script.dumps_text (PyDict [("fun", PyStr "test.ping")])))]
      (loop Script.world Script.bus_get_event Script.http_query Script.dumps
            Script.opts 1 Script.url PyNone PyNone
            (Script.mk_world [] [] false)).
Proof.
  exact (delivery_outcomes
           Script.world Script.bus_get_event Script.http_query Script.dumps
           Script.opts Script.url PyNone PyNone Script.job_event
           (PyDict [("fun", PyStr "test.ping")]) Script.job_world
           eq_refl eq_refl eq_refl eq_refl 1).
Defined.

(** [C4] as the specification states it fails: the data of the first event does
    not serialize, [dumps] raises [TypeError] inside [_logstash], and
    the exception leaves the loop and [start]; the second event stays on
    the bus, unread. *)
Lemma serialization_failure_leaves_loop :
  publish Script.bytes_event PyNone PyNone = Ok true /\
  Script.dumps (PyDict [("fun", PyStr "cmd.run"); ("out", PyBytes "ok")])
  = Raise TypeError /\
  start Script.world Script.bus_open Script.bus_get_event Script.bus_close
        Script.http_query Script.dumps Script.opts
        2 Script.url PyNone PyNone Script.bytes_world
  = mk_run (Raise TypeError)
           (Script.mk_world [Ok Script.job_event] [] true)
           [EOpen "minion" (PyStr "/var/run/salt/minion") (PyStr "zeromq");
            EGetEvent true; EClose].
Proof. repeat split. Qed.


Lemma role_selection_witness :
  exists instance rest,
    trace (start Script.world Script.bus_open Script.bus_get_event
                 Script.bus_close Script.http_query Script.dumps
                 Script.master_opts 1 Script.url PyNone PyNone
                 Script.job_world)
    = EOpen instance (PyStr "/var/run/salt/master") (PyStr "zeromq") :: rest /\
    filter is_open rest = [] /\
    (instance = "master"
     <-> exists p, "salt01_master" = (p ++ "_master")%string) /\
    (instance = "minion"
     <-> ~ exists p, "salt01_master" = (p ++ "_master")%string).
Proof.
  exact (role_selection
           Script.world Script.bus_open Script.bus_get_event Script.bus_close
           Script.http_query Script.dumps Script.master_opts
           "salt01_master" (PyStr "/var/run/salt/master") (PyStr "zeromq")
           1 Script.url PyNone PyNone Script.job_world
           eq_refl eq_refl eq_refl).
Defined.

Lemma missing_url_witness :
  call_start Script.world Script.bus_open Script.bus_get_event
             Script.bus_close Script.http_query Script.dumps Script.opts
             3 [("tags", str_list ["salt/job/*/new"])] Script.job_world
  = mk_run (Raise TypeError) Script.job_world [].
Proof.
  exact (missing_url
           Script.world Script.bus_open Script.bus_get_event Script.bus_close
           Script.http_query Script.dumps Script.opts
           3 [("tags", str_list ["salt/job/*/new"])] Script.job_world
           eq_refl).
Defined.

Lemma only_data_forwarded_witness :
  handle_event Script.world Script.http_query Script.dumps Script.opts
               Script.url PyNone PyNone Script.job_event Script.job_world
  = bind (_logstash Script.world Script.http_query Script.dumps Script.opts
                    Script.url (PyDict [("fun", PyStr "test.ping")]))
         (fun _ => ret tt) Script.job_world.
Proof.
  exact (proj1 (only_data_forwarded
                  Script.world Script.http_query Script.dumps
                  Script.opts Script.url PyNone PyNone
                  "salt/job/123/new" [("fun", PyStr "test.ping")]
                  Script.job_world eq_refl)).
Defined.

Lemma null_event_skip_witness :
  iteration Script.world Script.bus_get_event Script.http_query Script.dumps
            Script.opts Script.url PyNone PyNone Script.idle_world
  = mk_run (Ok tt) (Script.mk_world [Ok Script.job_event] [] false)
           [EGetEvent true].
Proof.
  exact (proj1 (proj2 (null_event_skip
                         Script.world Script.bus_get_event Script.http_query
                         Script.dumps Script.opts Script.url PyNone PyNone
                         PyNone Script.idle_world eq_refl eq_refl))).
Defined.

(* ------------------------------------------------------------------ *)
(** ** More about the filter *)
(* ------------------------------------------------------------------ *)

Lemma tag_block_nonempty_str tag data p l publish :
  tag_block (mk_event tag data) (str_list (p :: l)) publish
  = Ok (existsb (Fnmatch.fnmatchcase tag) (p :: l)).
Proof. exact (tag_block_str tag data (Some (p :: l)) publish). Qed.

Lemma for_tags_not_str tag data l : forall found_match,
  Exists (fun t => forall p, t <> PyStr p) l ->
  for_tags (mk_event tag data) l found_match = Raise TypeError.
Proof.
  induction l as [|t l IH]; intros fm H; [inversion H|].
  cbn [for_tags]. rewrite event_tag. cbn [res_bind].
  destruct t as [| | |p| | | |]; try reflexivity.
  cbn [Fnmatch.fnmatch res_bind]. apply IH.
  inversion H as [? ? Hhd | ? ? Htl]; subst; [|exact Htl].
  now elim (Hhd p).
Qed.

(** [X1] The [for] loop has no [break]: every element of a [tags] list is
    handed to [fnmatch], so one element that is not a string makes the
    filter raise [TypeError] for every event with a tag, whether or not
    another pattern matches. *)
Theorem every_pattern_is_tried tag data l funs :
  Exists (fun t => forall p, t <> PyStr p) l ->
  publish (mk_event tag data) funs (PyList l) = Raise TypeError.
Proof.
  intros H. unfold publish, tag_block.
  replace (truthy (PyList l) && isinstance_list (PyList l)) with true
    by (destruct l; [inversion H | reflexivity]).
  now rewrite for_tags_not_str.
Qed.

Lemma every_pattern_is_tried_witness :
  publish (mk_event "salt/job/123/new" []) PyNone
          (PyList [PyStr "salt/job/*/new"; PyInt 7]) = Raise TypeError.
Proof.
  apply every_pattern_is_tried.
  apply Exists_cons_tl, Exists_cons_hd. discriminate.
Defined.

Lemma existsb_same_elements (f : string -> bool) P Q :
  (forall p, In p P -> In p Q) ->
  existsb f P = true -> existsb f Q = true.
Proof.
  intros H. rewrite !existsb_exists. intros (p & Hin & Hp). eauto.
Qed.

(** [X2] The patterns are used as a set: two lists with the same elements, in
    whatever order and however often, give the same decision for every
    event and every [funs]. *)
Theorem patterns_as_a_set tag data funs P Q :
  (forall p, In p P <-> In p Q) ->
  publish (mk_event tag data) funs (str_list P)
  = publish (mk_event tag data) funs (str_list Q).
Proof.
  intros H. unfold publish.
  destruct P as [|p P], Q as [|q Q]; try reflexivity.
  - now elim (proj2 (H q) (or_introl eq_refl)).
  - now elim (proj1 (H p) (or_introl eq_refl)).
  - rewrite !tag_block_nonempty_str. do 2 f_equal.
    apply eq_true_iff_eq. split; apply existsb_same_elements;
      intros x; apply H.
Qed.

Lemma patterns_as_a_set_witness :
  publish (mk_event "salt/auth" []) PyNone
          (str_list ["salt/auth"; "salt/job/*"])
  = publish (mk_event "salt/auth" []) PyNone
            (str_list ["salt/job/*"; "salt/auth"; "salt/job/*"]).
Proof.
  apply patterns_as_a_set. intros p. cbn. tauto.
Defined.

(** Once [publish] is cleared the function block does not set it. *)
Lemma fun_block_false event funs b :
  fun_block event funs false = Ok b -> b = false.
Proof.
  destruct (fun_block event funs true) as [b'|e] eqn:E.
  - rewrite (fun_block_and _ _ false b' E). now intros [= <-].
  - now rewrite (fun_block_raise _ _ false e E).
Qed.

(** [X3] Adding patterns to a list that has some never drops an event that
    was published. *)
Theorem more_patterns_more_events tag data funs P Q :
  P <> [] -> (forall p, In p P -> In p Q) ->
  publish (mk_event tag data) funs (str_list P) = Ok true ->
  publish (mk_event tag data) funs (str_list Q) = Ok true.
Proof.
  intros HP H. unfold publish.
  destruct P as [|p P]; [now elim HP|].
  destruct Q as [|q Q]; [now elim (H p (or_introl eq_refl))|].
  rewrite !tag_block_nonempty_str. cbn [res_bind].
  destruct (existsb _ (p :: P)) eqn:E.
  - now rewrite (existsb_same_elements _ _ _ H E).
  - intros Hf. now apply fun_block_false in Hf.
Qed.

Lemma more_patterns_more_events_witness :
  publish (mk_event "salt/auth" []) PyNone
          (str_list ["salt/job/*"; "salt/auth"]) = Ok true.
Proof.
  apply (more_patterns_more_events _ _ _ ["salt/auth"]).
  - discriminate.
  - intros p [<- | []]. cbn. tauto.
  - reflexivity.
Defined.

Lemma chars_inj s t :
  list_ascii_of_string s = list_ascii_of_string t -> s = t.
Proof.
  intros H. apply (f_equal string_of_list_ascii) in H.
  now rewrite !string_of_list_ascii_of_string in H.
Qed.

Lemma chars_of_list l :
  list_ascii_of_string (string_of_list_ascii l) = l.
Proof. apply list_ascii_of_string_of_list_ascii. Qed.

Lemma infixb_spec p : forall s,
  Str.infixb p s = true <-> exists a b, s = a ++ p ++ b.
Proof.
  induction s as [|c s IH]; cbn [Str.infixb].
  - rewrite orb_false_r, StrFacts.prefixb_split. split.
    + intros [t E]. now exists [], t.
    + intros (a & b & E). destruct a; [|discriminate]. now exists b.
  - rewrite orb_true_iff, StrFacts.prefixb_split, IH. split.
    + intros [[t E] | (a & b & E)].
      * now exists [], t.
      * exists (c :: a), b. now rewrite E.
    + intros (a & b & E). destruct a as [|c' a]; cbn in E.
      * left. now exists b.
      * right. injection E as _ E. now exists a, b.
Qed.

(** [p in s] for two strings says that [s] is some text, then [p], then
    some text. *)
Lemma contains_spec s p :
  Str.contains s p = true <-> exists a b, s = (a ++ p ++ b)%string.
Proof.
  unfold Str.contains. rewrite infixb_spec. split.
  - intros (a & b & E).
    exists (string_of_list_ascii a), (string_of_list_ascii b).
    apply chars_inj.
    now rewrite !StrFacts.list_ascii_of_string_app, !chars_of_list.
  - intros (a & b & ->).
    exists (list_ascii_of_string a), (list_ascii_of_string b).
    now rewrite !StrFacts.list_ascii_of_string_app.
Qed.

(** [X4] Unlike [tags], [funs] is not required to be a list.  When it is
    given as one string, line 120 tests the event's function with the
    [in] of strings: the function test accepts every event whose
    function name occurs somewhere inside that string, not only the one
    that equals it. *)
Theorem funs_string_is_searched tag data f s :
  dict_get "fun" data = Some (PyStr f) -> s <> EmptyString ->
  fun_accepts (mk_event tag data) (PyStr s) = Ok (Str.contains s f) /\
  (fun_accepts (mk_event tag data) (PyStr s) = Ok true <->
   exists a b, s = (a ++ f ++ b)%string).
Proof.
  intros H Hs.
  assert (E : fun_accepts (mk_event tag data) (PyStr s)
              = Ok (Str.contains s f)).
  { unfold fun_accepts, fun_block.
    replace (truthy (PyStr s)) with true
      by (destruct s; [now elim Hs | reflexivity]).
    rewrite event_data. cbn [res_bind py_contains hashable].
    unfold dict_has. rewrite H. cbn [res_bind py_getitem].
    rewrite H. cbn [res_bind]. now destruct (Str.contains s f). }
  split; [exact E|]. rewrite E, <- contains_spec.
  split; [now intros [= ->] | now intros ->].
Qed.

Lemma funs_string_is_searched_witness :
  fun_accepts (mk_event "any/tag" [("fun", PyStr "probes")])
              (PyStr "probes.results") = Ok true.
Proof.
  apply (proj2 (funs_string_is_searched "any/tag" [("fun", PyStr "probes")]
                  "probes" "probes.results" eq_refl
                  ltac:(discriminate))).
  now exists EmptyString, ".results".
Defined.

(* ------------------------------------------------------------------ *)
(** ** Patterns without wildcards, and patterns that end in a star *)
(* ------------------------------------------------------------------ *)

Lemma translate_aux_literal l : forall fuel rest,
  forallb (fun c => negb (is_wildcard c)) l = true ->
  Fnmatch.translate_aux (List.length l + fuel) (l ++ rest)
  = map Fnmatch.GLit l ++ Fnmatch.translate_aux fuel rest.
Proof.
  induction l as [|c l IH]; intros fuel rest H; [reflexivity|].
  cbn [forallb] in H. apply andb_true_iff in H as [Hc Hl].
  unfold is_wildcard in Hc. rewrite !negb_orb in Hc.
  apply andb_true_iff in Hc as [Hc H3]. apply andb_true_iff in Hc as [H1 H2].
  apply negb_true_iff in H1, H2, H3.
  cbn [List.length Nat.add app Fnmatch.translate_aux map].
  rewrite H1, H2, H3. f_equal. now apply IH.
Qed.

Lemma matches_literal l toks : forall s,
  Fnmatch.matches (map Fnmatch.GLit l ++ toks) s = true <->
  exists rest, s = l ++ rest /\ Fnmatch.matches toks rest = true.
Proof.
  induction l as [|c l IH]; intros s.
  - cbn [map app]. split; [intros H; now exists s | now intros (r & -> & H)].
  - cbn [map app Fnmatch.matches]. destruct s as [|a s].
    + split; [discriminate | intros (r & E & _); discriminate].
    + rewrite andb_true_iff, Ascii.eqb_eq, IH. split.
      * intros (-> & r & -> & H). now exists r.
      * intros (r & E & H). injection E as -> ->. split; eauto.
Qed.

Lemma star_matches_all s : Fnmatch.matches [Fnmatch.GStar] s = true.
Proof.
  apply FnmatchFacts.matches_Glob.
  rewrite <- (app_nil_r s). constructor. constructor.
Qed.

(** [X5] A pattern with no [*], [?] or [[] in it matches the tag that equals
    it, character for character, and no other: with such patterns only,
    and no [funs], an event is published if and only if its tag is one
    of the patterns. *)
Theorem plain_patterns_match_themselves tag data funs P :
  truthy funs = false -> P <> [] ->
  forallb wildcard_free P = true ->
  (publish (mk_event tag data) funs (str_list P) = Ok true <-> In tag P).
Proof.
  intros Hf HP Hw. unfold publish.
  destruct P as [|p0 P]; [now elim HP|].
  rewrite tag_block_nonempty_str. cbn [res_bind].
  rewrite fun_block_falsy by exact Hf.
  assert (Hlit : forall p, wildcard_free p = true ->
                   (Fnmatch.fnmatchcase tag p = true <-> tag = p)).
  { intros p Hp. unfold Fnmatch.fnmatchcase, Fnmatch.translate.
    pose proof (translate_aux_literal (list_ascii_of_string p) 0 [] Hp) as E.
    rewrite Nat.add_0_r, app_nil_r in E. rewrite E.
    rewrite matches_literal. cbn [Fnmatch.matches]. split.
    - intros (r & E' & Hr). destruct r; [|discriminate].
      rewrite app_nil_r in E'. now apply chars_inj.
    - intros ->. exists []. now rewrite app_nil_r. }
  rewrite forallb_forall in Hw. split.
  - intros Heq.
    assert (E : existsb (Fnmatch.fnmatchcase tag) (p0 :: P) = true)
      by congruence.
    apply existsb_exists in E as (p & Hin & Hm).
    apply Hlit in Hm; [now subst | now apply Hw].
  - intros Hin. f_equal. apply existsb_exists. exists tag. split; [exact Hin|].
    apply Hlit; [now apply Hw | reflexivity].
Qed.

Lemma plain_patterns_match_themselves_witness :
  publish (mk_event "salt/auth" []) PyNone
          (str_list ["salt/key"; "salt/auth"]) = Ok true
  <-> In "salt/auth" ["salt/key"; "salt/auth"].
Proof.
  apply plain_patterns_match_themselves.
  - reflexivity.
  - discriminate.
  - reflexivity.
Defined.

Lemma fnmatchcase_prefix tag prefix :
  wildcard_free prefix = true ->
  (Fnmatch.fnmatchcase tag (prefix ++ "*") = true <->
   exists rest, tag = (prefix ++ rest)%string).
Proof.
  intros Hp. unfold Fnmatch.fnmatchcase, Fnmatch.translate.
  rewrite StrFacts.list_ascii_of_string_app, length_app.
  rewrite (translate_aux_literal _ _ _ Hp).
  cbn [list_ascii_of_string List.length Fnmatch.translate_aux].
  rewrite matches_literal. split.
  - intros (r & E & _). exists (string_of_list_ascii r). apply chars_inj.
    now rewrite StrFacts.list_ascii_of_string_app, chars_of_list.
  - intros (r & ->). exists (list_ascii_of_string r).
    rewrite StrFacts.list_ascii_of_string_app. split; [reflexivity|].
    apply star_matches_all.
Qed.

(** [X6] A pattern made of plain text followed by one [*] selects the events
    whose tag begins with that text, and only those. *)
Theorem prefix_pattern tag data funs prefix :
  truthy funs = false ->
  wildcard_free prefix = true ->
  (publish (mk_event tag data) funs (str_list [(prefix ++ "*")%string])
   = Ok true
   <-> exists rest, tag = (prefix ++ rest)%string).
Proof.
  intros Hf Hp. unfold publish.
  rewrite tag_block_nonempty_str. cbn [res_bind existsb].
  rewrite fun_block_falsy, orb_false_r by exact Hf.
  rewrite <- (fnmatchcase_prefix tag prefix Hp).
  split; [now intros [= ->] | now intros ->].
Qed.

Lemma prefix_pattern_witness :
  publish (mk_event "salt/job/123/new" []) PyNone
          (str_list [("salt/job/" ++ "*")%string]) = Ok true
  <-> exists rest, "salt/job/123/new" = ("salt/job/" ++ rest)%string.
Proof. apply prefix_pattern; reflexivity. Defined.

(* ------------------------------------------------------------------ *)
(** ** Forwarding a whole stream of events *)
(* ------------------------------------------------------------------ *)

(** With lists of strings (or nothing) as [funs] and [tags], the filter
    decides every event that has a tag and data: it does not raise. *)
Lemma publish_decides tag data F P :
  exists b,
    publish (mk_event tag data) (opt_str_list F) (opt_str_list P) = Ok b.
Proof.
  unfold publish. rewrite tag_block_str. cbn [res_bind].
  destruct F as [[|f F]|].
  - rewrite fun_block_falsy by reflexivity. eauto.
  - destruct (dict_get "fun" data) as [v|] eqn:E.
    + cbn [opt_str_list]. rewrite (fun_block_fun _ _ v) by easy. eauto.
    + rewrite fun_block_no_fun by exact E. eauto.
  - rewrite fun_block_falsy by reflexivity. eauto.
Qed.

Lemma deliveries_cons json_dumps opts url funs tags td evs :
  deliveries json_dumps opts url funs tags (td :: evs)
  = (if accepted funs tags td
     then match json_dumps (PyDict (snd td)) with
          | Ok body => [EQuery (post_request opts url body)]
          | Raise _ => []
          end
     else [])
    ++ deliveries json_dumps opts url funs tags evs.
Proof.
  unfold deliveries. cbn [filter].
  destruct (accepted funs tags td); reflexivity.
Qed.

(** [X15] Nothing is lost, repeated or reordered.  Run on a bus that holds
    the events [evs], with an endpoint that answers every request and
    data that serializes, the loop reads all the events and its queries
    are exactly the deliveries of the accepted events, one each, in the
    order of the bus. *)
Theorem forwarding_in_order json_dumps opts url F P evs :
  forall outcomes closed,
  Forall (fun td =>
            accepted (opt_str_list F) (opt_str_list P) td = true ->
            dumps_ok (json_dumps (PyDict (snd td))) = true) evs ->
  Forall (fun o => is_ok o = true) outcomes ->
  let r :=
    loop Script.world Script.bus_get_event Script.http_query json_dumps opts
         (List.length evs) url (opt_str_list F) (opt_str_list P)
         (Script.mk_world (map (fun td => Ok (event_of td)) evs)
                          outcomes closed) in
  result r = Ok tt /\
  filter is_query (trace r)
  = deliveries json_dumps opts url (opt_str_list F) (opt_str_list P) evs /\
  Script.events (final r) = [].
Proof.
  induction evs as [|[tag data] evs IH]; intros outcomes closed Hd Ho;
    [now repeat split|].
  inversion Hd as [|? ? Hd1 Hd2]; subst. cbv zeta.
  cbn [List.length map]. rewrite turns_S, turn_run, deliveries_cons.
  cbn [Script.bus_get_event Script.events Script.outcomes Script.closed
       fst snd].
  rewrite handle_run.
  change (event_of (tag, data)) with (mk_event tag data).
  rewrite truthy_event, event_data.
  unfold accepted in Hd1 |- *.
  change (event_of (tag, data)) with (mk_event tag data) in Hd1 |- *.
  cbn [snd] in Hd1 |- *.
  destruct (publish_decides tag data F P) as [b Hb]. rewrite Hb in Hd1 |- *.
  destruct b.
  - rewrite logstash_then_ret.
    destruct (json_dumps (PyDict data)) as [body|e];
      [|now specialize (Hd1 eq_refl)].
    destruct outcomes as [|o outcomes].
    + cbn [Script.http_query Script.events Script.outcomes Script.closed
           fst snd res_bind prepend result final trace].
      destruct (IH [] closed Hd2 Ho) as (H1 & H2 & H3).
      cbn [prepend result final trace app filter is_query].
      repeat split; [exact H1 | now rewrite H2 | exact H3].
    + inversion Ho as [|? ? Ho1 Ho2]; subst.
      destruct o as [v|e]; [|discriminate Ho1].
      cbn [Script.http_query Script.events Script.outcomes Script.closed
           fst snd res_bind prepend result final trace].
      destruct (IH outcomes closed Hd2 Ho2) as (H1 & H2 & H3).
      cbn [prepend result final trace app filter is_query].
      repeat split; [exact H1 | now rewrite H2 | exact H3].
  - cbn [prepend result final trace].
    destruct (IH outcomes closed Hd2 Ho) as (H1 & H2 & H3).
    cbn [prepend result final trace app filter is_query].
    repeat split; [exact H1 | exact H2 | exact H3].
Qed.

Lemma forwarding_in_order_witness :
  filter is_query
    (trace
       (loop Script.world Script.bus_get_event Script.http_query Script.dumps
             Script.opts 3 Script.url (opt_str_list None)
             (opt_str_list (Some ["salt/job/*/new"]))
             (Script.mk_world
                (map (fun td => Ok (event_of td))
                     [("salt/job/1/new", [("fun", PyStr "test.ping")]);
                      ("salt/auth", []);
                      ("salt/job/2/new", [("fun", PyStr "cmd.run")])])
                [Ok (Script.status 500)] false)))
  = deliveries Script.dumps Script.opts Script.url (opt_str_list None)
               (opt_str_list (Some ["salt/job/*/new"]))
               [("salt/job/1/new", [("fun", PyStr "test.ping")]);
                ("salt/auth", []);
                ("salt/job/2/new", [("fun", PyStr "cmd.run")])].
Proof.
  exact (proj1 (proj2 (forwarding_in_order
    Script.dumps Script.opts Script.url None (Some ["salt/job/*/new"])
    [("salt/job/1/new", [("fun", PyStr "test.ping")]);
     ("salt/auth", []);
     ("salt/job/2/new", [("fun", PyStr "cmd.run")])]
    [Ok (Script.status 500)] false
    ltac:(repeat constructor) ltac:(repeat constructor)))).
Defined.

(* ------------------------------------------------------------------ *)
(** ** The engine in the scripted world, continued *)
(* ------------------------------------------------------------------ *)

Lemma event_without_tag_witness :
  tag_accepts (PyDict [("data", PyDict [])]) (str_list ["salt/*"])
  = Raise KeyError.
Proof.
  exact (event_without_tag [("data", PyDict [])] (str_list ["salt/*"])
           eq_refl).
Defined.


Lemma startup_failures_witness :
  start Script.world Script.bus_open Script.bus_get_event Script.bus_close
        Script.http_query Script.dumps [("sock_dir", PyStr "/tmp")]
        1 Script.url PyNone PyNone Script.job_world
  = mk_run (Raise AttributeError) Script.job_world [] /\
  start Script.world Script.bus_open Script.bus_get_event Script.bus_close
        Script.http_query Script.dumps [("id", PyStr "web01")]
        1 Script.url PyNone PyNone Script.job_world
  = mk_run (Raise KeyError) Script.job_world [].
Proof.
  split.
  - exact (proj1 (startup_failures
                    Script.world Script.bus_open Script.bus_get_event
                    Script.bus_close Script.http_query Script.dumps
                    [("sock_dir", PyStr "/tmp")] 1 Script.url PyNone PyNone
                    Script.job_world) eq_refl).
  - exact (proj2 (startup_failures
                    Script.world Script.bus_open Script.bus_get_event
                    Script.bus_close Script.http_query Script.dumps
                    [("id", PyStr "web01")] 1 Script.url PyNone PyNone
                    Script.job_world) "web01" eq_refl (or_introl eq_refl)).
Defined.

Lemma subscription_released_witness :
  start Script.world Script.bus_open Script.bus_get_event Script.bus_close
        Script.http_query Script.dumps Script.opts
        2 Script.url PyNone PyNone Script.bytes_world
  = mk_run (Raise TypeError)
      (Script.bus_close (Script.mk_world [Ok Script.job_event] [] false))
      (EOpen "minion" (PyStr "/var/run/salt/minion") (PyStr "zeromq")
       :: [EGetEvent true] ++ [EClose]) /\
  closes (trace (start Script.world Script.bus_open Script.bus_get_event
                       Script.bus_close Script.http_query Script.dumps
                       Script.opts 2 Script.url PyNone PyNone
                       Script.bytes_world)) = 1 /\
  closes [EGetEvent true] = 0.
Proof.
  exact (subscription_released
           Script.world Script.bus_open Script.bus_get_event Script.bus_close
           Script.http_query Script.dumps Script.opts
           "minion" (PyStr "/var/run/salt/minion") (PyStr "zeromq")
           2 Script.url PyNone PyNone Script.bytes_world
           eq_refl eq_refl eq_refl eq_refl).
Defined.

Lemma get_event_failure_witness :
  start Script.world Script.bus_open Script.bus_get_event Script.bus_close
        Script.http_query Script.dumps Script.opts
        1 Script.url PyNone PyNone
        (Script.mk_world [Raise (OtherError "SaltReqTimeoutError")] [] false)
  = mk_run (Raise (OtherError "SaltReqTimeoutError"))
           (Script.mk_world [] [] true)
           [EOpen "minion" (PyStr "/var/run/salt/minion") (PyStr "zeromq");
            EGetEvent true; EClose].
Proof.
  exact (get_event_failure
           Script.world Script.bus_open Script.bus_get_event Script.bus_close
           Script.http_query Script.dumps Script.opts
           "minion" (PyStr "/var/run/salt/minion") (PyStr "zeromq")
           0 Script.url PyNone PyNone
           (Script.mk_world [Raise (OtherError "SaltReqTimeoutError")] []
                            false)
           (OtherError "SaltReqTimeoutError")
           eq_refl eq_refl eq_refl eq_refl eq_refl).
Defined.

Lemma loop_is_sequential_witness :
  reads (trace (loop Script.world Script.bus_get_event Script.http_query
                     Script.dumps Script.opts 3 Script.url PyNone PyNone
                     Script.idle_world)) = 3.
Proof.
  exact (proj2 (loop_is_sequential
                  Script.world Script.bus_get_event Script.http_query
                  Script.dumps Script.opts Script.url PyNone PyNone 3
                  Script.idle_world) eq_refl).
Defined.

(* ------------------------------------------------------------------ *)
(** ** The provider name of the cloud driver *)
(* ------------------------------------------------------------------ *)

Module LightsailFacts.
Import Lightsail.

Lemma infixb_char c s : Str.infixb [c] s = true <-> In c s.
Proof.
  induction s as [|a s IH]; cbn [Str.infixb Str.prefixb In].
  - split; [discriminate | easy].
  - rewrite orb_true_iff, andb_true_r, Ascii.eqb_eq, IH.
    split; (intros [H | H]; [left | right]); auto.
Qed.

Lemma contains_colon s :
  Str.contains s ":" = true <-> In ":"%char (list_ascii_of_string s).
Proof. apply infixb_char. Qed.

Lemma before_colon_free s : ~ In ":"%char (before_colon s).
Proof.
  induction s as [|c s IH]; cbn [before_colon]; [easy|].
  destruct (Ascii.eqb c ":") eqn:E; [easy|].
  intros [H | H]; [|now apply IH].
  apply Ascii.eqb_neq in E. now elim E.
Qed.

Lemma before_colon_split s :
  In ":"%char s -> exists rest, s = before_colon s ++ ":"%char :: rest.
Proof.
  induction s as [|c s IH]; [easy|]. intros H. cbn [before_colon].
  destruct (Ascii.eqb c ":") eqn:E.
  - apply Ascii.eqb_eq in E as ->. now exists s.
  - destruct H as [H | H].
    + apply Ascii.eqb_neq in E. now elim E.
    + destruct (IH H) as [rest Hr]. exists rest. cbn [app]. now f_equal.
Qed.

(** What [get_provider] makes of a provider that is a string. *)
Lemma finish_provider s :
  res_bind (py_contains (PyStr s) (PyStr ":")) (fun has_colon =>
    if (has_colon : bool) then py_split_head (PyStr s) else Ok (PyStr s))
  = Ok (PyStr (if Str.contains s ":"
               then string_of_list_ascii
                      (before_colon (list_ascii_of_string s))
               else s)).
Proof. cbn [py_contains res_bind]. now destruct (Str.contains s ":"). Qed.

(** [X17] [get_provider] on a VM whose ["provider"] is a string returns the
    name in front of the first colon: a string with no colon in it,
    which is the provider itself when that has no colon and is followed
    in it by a colon otherwise. *)
Theorem get_provider_name active d s :
  dict_get "provider" d = Some (PyStr s) ->
  exists name,
    get_provider active (PyDict d) = Ok (PyStr name) /\
    ~ In ":"%char (list_ascii_of_string name) /\
    (s = name \/ exists rest, s = (name ++ ":" ++ rest)%string).
Proof.
  intros H. unfold get_provider, py_get_provider. rewrite H.
  cbn [res_bind]. rewrite finish_provider. eexists. split; [reflexivity|].
  destruct (Str.contains s ":") eqn:E.
  - apply contains_colon in E. rewrite chars_of_list.
    split; [apply before_colon_free|]. right.
    destruct (before_colon_split _ E) as [rest Hr].
    exists (string_of_list_ascii rest). apply chars_inj.
    rewrite !StrFacts.list_ascii_of_string_app, !chars_of_list.
    exact Hr.
  - split; [|now left]. rewrite <- contains_colon, E. discriminate.
Qed.

Lemma get_provider_name_witness :
  exists name,
    get_provider PyNone (PyDict [("provider", PyStr "my-lightsail:lightsail")])
    = Ok (PyStr name) /\
    ~ In ":"%char (list_ascii_of_string name) /\
    ("my-lightsail:lightsail" = name \/
     exists rest, "my-lightsail:lightsail" = (name ++ ":" ++ rest)%string).
Proof. apply get_provider_name. reflexivity. Defined.

(** [X18] A name that [get_provider] has returned is a fixed point: given back
    as the ["provider"] of a VM, it is returned unchanged. *)
Theorem get_provider_idempotent active vm_ v :
  get_provider active vm_ = Ok v ->
  forall active', get_provider active' (PyDict [("provider", v)]) = Ok v.
Proof.
  intros H active'.
  assert (Hfix : py_contains v (PyStr ":") = Ok false).
  { unfold get_provider in H.
    destruct (match vm_ with PyNone => _ | _ => _ end) as [p|];
      [|discriminate H].
    cbn [res_bind] in H.
    destruct (py_contains p (PyStr ":")) as [[|]|] eqn:E;
      cbn [res_bind] in H; try discriminate H.
    - destruct p; try discriminate H. injection H as <-.
      cbn [py_contains]. f_equal.
      apply not_true_is_false. rewrite contains_colon, chars_of_list.
      apply before_colon_free.
    - now injection H as <-. }
  unfold get_provider, py_get_provider. cbn. now rewrite Hfix.
Qed.

Lemma get_provider_idempotent_witness :
  get_provider (PyStr "other")
               (PyDict [("provider", PyStr "my-lightsail")])
  = Ok (PyStr "my-lightsail").
Proof.
  exact (get_provider_idempotent
           PyNone (PyDict [("provider", PyStr "my-lightsail:lightsail")])
           (PyStr "my-lightsail") eq_refl (PyStr "other")).
Defined.

End LightsailFacts.

(* ------------------------------------------------------------------ *)
(** ** The allow-list as a set *)
(* ------------------------------------------------------------------ *)

(** [X16] The names in [funs] are used as a set: two non-empty lists with the
    same elements, in whatever order and however often, give the same
    decision for every event and every [tags]. *)
Theorem funs_as_a_set tag data tags F G :
  F <> [] ->
  (forall f, In f F <-> In f G) ->
  publish (mk_event tag data) (str_list F) tags
  = publish (mk_event tag data) (str_list G) tags.
Proof.
  intros HF H.
  assert (HG : G <> []).
  { destruct F as [|f F]; [now elim HF|]. intros ->.
    now elim (proj1 (H f) (or_introl eq_refl)). }
  unfold publish.
  destruct (tag_block (mk_event tag data) tags true) as [p|e];
    cbn [res_bind]; [|reflexivity].
  destruct (dict_get "fun" data) as [v|] eqn:E.
  - rewrite !(fun_block_fun _ _ v) by assumption. do 2 f_equal.
    apply eq_true_iff_eq. rewrite !existsb_py_eq_str.
    split; intros (name & Hin & ->); exists name; split; auto; now apply H.
  - now rewrite !fun_block_no_fun.
Qed.

Lemma funs_as_a_set_witness :
  publish (mk_event "any/tag" [("fun", PyStr "bgp.config")])
          (str_list ["probes.results"; "bgp.config"]) PyNone
  = publish (mk_event "any/tag" [("fun", PyStr "bgp.config")])
            (str_list ["bgp.config"; "probes.results"; "bgp.config"]) PyNone.
Proof.
  apply funs_as_a_set; [discriminate|]. intros f. cbn. tauto.
Defined.
